(** * GitLens git layer ([src/git/git.ts]): path resolution, command
      construction, process invocation and revision materialization.

    The TypeScript module is embedded shallowly.  JavaScript strings are
    [string]s, the string methods the module calls ([replace], [includes],
    [RegExp.test]) are given as executable functions in [Js] and [RegExp],
    and the effectful part (spawning the tool, logging, temp files) is
    written in a small state monad over a [World] that records every
    spawned process and every log entry. *)

From Stdlib Require Import String Ascii List Bool Arith NArith Lia DecimalString.
Import ListNotations.
Open Scope string_scope.

(** ** JavaScript string primitives used by the module *)

Module Js.

Definition backslash : ascii := Eval cbv in ascii_of_nat 92.
Definition slash : ascii := Eval cbv in ascii_of_nat 47.
Definition LF : ascii := Eval cbv in ascii_of_nat 10.
Definition CR : ascii := Eval cbv in ascii_of_nat 13.

(** [s.startsWith(p)] *)
Fixpoint startsWith (p s : string) : bool :=
  match p, s with
  | EmptyString, _ => true
  | String _ _, EmptyString => false
  | String a p', String b s' => Ascii.eqb a b && startsWith p' s'
  end.

(** [s.slice(n)] for [0 <= n] *)
Fixpoint drop (n : nat) (s : string) : string :=
  match n, s with
  | O, _ => s
  | S _, EmptyString => EmptyString
  | S n', String _ s' => drop n' s'
  end.

(** [s.includes(p)]: [p] occurs at some position of [s]. *)
Fixpoint includes (p s : string) : bool :=
  startsWith p s ||
  match s with
  | EmptyString => false
  | String _ s' => includes p s'
  end.

(** [s.replace(p, r)] with a _string_ pattern [p]: only the first
    (leftmost) occurrence of [p] is replaced, wherever it is; without an
    occurrence [s] is returned as it is.  The module only ever passes the
    replacement [''], so the [$]-patterns of replacement strings play no
    part. *)
Fixpoint replace (p r s : string) : string :=
  if startsWith p s then r ++ drop (String.length p) s
  else match s with
       | EmptyString => EmptyString
       | String c s' => String c (replace p r s')
       end.

(** [s.replace(/a/g, b)] for a one-character pattern [a]: every
    occurrence is replaced. *)
Fixpoint replaceAllChar (a b : ascii) (s : string) : string :=
  match s with
  | EmptyString => EmptyString
  | String c s' => String (if Ascii.eqb c a then b else c) (replaceAllChar a b s')
  end.

(** [s.replace(/\r?\n|\r/g, ' ')]: each line break (CR LF, LF or CR)
    becomes one space. *)
Fixpoint replaceLineBreaks (s : string) : string :=
  match s with
  | EmptyString => EmptyString
  | String c s' =>
      if Ascii.eqb c CR then
        match s' with
        | String d s'' =>
            if Ascii.eqb d LF then String " " (replaceLineBreaks s'')
            else String " " (replaceLineBreaks s')
        | EmptyString => String " " EmptyString
        end
      else if Ascii.eqb c LF then String " " (replaceLineBreaks s')
      else String c (replaceLineBreaks s')
  end.

(** [s.replace(/\r?\n|\r/g, '')]: each line break (CR LF, LF or CR) is
    removed. *)
Fixpoint removeLineBreaks (s : string) : string :=
  match s with
  | EmptyString => EmptyString
  | String c s' =>
      if Ascii.eqb c CR then
        match s' with
        | String d s'' =>
            if Ascii.eqb d LF then removeLineBreaks s''
            else removeLineBreaks s'
        | EmptyString => EmptyString
        end
      else if Ascii.eqb c LF then removeLineBreaks s'
      else String c (removeLineBreaks s')
  end.

(** Template-literal rendering of a line number: a non-negative integer,
    which JavaScript prints in plain decimal below 1e21. *)
Definition numberToString (n : N) : string :=
  NilZero.string_of_uint (N.to_uint n).

(** The values that can be thrown, rejected with, or handed to the
    logger. *)
Inductive Value :=
| VUndefined
| VNull
| VString (s : string)
| VError (message : string).   (* [new Error(message)] *)

Definition truthy (v : Value) : bool :=
  match v with
  | VUndefined | VNull => false
  | VString s => negb (String.eqb s "")
  | VError _ => true
  end.

(** [v.toString()]; [Error.prototype.toString] prints the name and, when
    there is one, the message. *)
Definition toString (v : Value) : string :=
  match v with
  | VUndefined => "undefined"
  | VNull => "null"
  | VString s => s
  | VError m => if String.eqb m "" then "Error" else "Error: " ++ m
  end.

(** [a && b] *)
Definition and (a b : Value) : Value := if truthy a then b else a.

End Js.

(** ** Regular expressions, as far as [RegExp.prototype.test] needs them *)

Module RegExp.

Inductive re :=
| Fail
| Eps
| Class (cs : list ascii)      (* [...] *)
| Seq (a b : re)
| Alt (a b : re)               (* a|b *)
| Star (a : re)                (* a* *)
| Plus (a : re).               (* a+ *)

(** A pattern with its two optional anchors: [/^body$/]. *)
Record t := { from_start : bool; body : re; to_end : bool }.

Fixpoint nullable (r : re) : bool :=
  match r with
  | Fail => false
  | Eps => true
  | Class _ => false
  | Seq a b => nullable a && nullable b
  | Alt a b => nullable a || nullable b
  | Star _ => true
  | Plus a => nullable a
  end.

Definition mem (c : ascii) (cs : list ascii) : bool :=
  existsb (Ascii.eqb c) cs.

(** Brzozowski derivative: what may follow after reading [c]. *)
Fixpoint deriv (c : ascii) (r : re) : re :=
  match r with
  | Fail => Fail
  | Eps => Fail
  | Class cs => if mem c cs then Eps else Fail
  | Seq a b =>
      if nullable a then Alt (Seq (deriv c a) b) (deriv c b)
      else Seq (deriv c a) b
  | Alt a b => Alt (deriv c a) (deriv c b)
  | Star a => Seq (deriv c a) (Star a)
  | Plus a => Seq (deriv c a) (Star a)
  end.

(** [r] matches the whole of [s]. *)
Fixpoint accepts (r : re) (s : string) : bool :=
  match s with
  | EmptyString => nullable r
  | String c s' => accepts (deriv c r) s'
  end.

(** [r] matches some prefix of [s]. *)
Fixpoint accepts_prefix (r : re) (s : string) : bool :=
  nullable r ||
  match s with
  | EmptyString => false
  | String c s' => accepts_prefix (deriv c r) s'
  end.

(** A match that starts at the first character of [s]. *)
Definition match_here (x : t) (s : string) : bool :=
  if to_end x then accepts (body x) s else accepts_prefix (body x) s.

Fixpoint search (x : t) (s : string) : bool :=
  match_here x s ||
  match s with
  | EmptyString => false
  | String _ s' => search x s'
  end.

(** [x.test(s)] (no flags): is there a match anywhere in [s]? *)
Definition test (x : t) (s : string) : bool :=
  if from_start x then match_here x s else search x s.

(** The language of a pattern body, against which the matcher is
    checked below. *)
Inductive lang : re -> string -> Prop :=
| L_eps : lang Eps ""
| L_class cs c : In c cs -> lang (Class cs) (String c "")
| L_seq a b s1 s2 : lang a s1 -> lang b s2 -> lang (Seq a b) (s1 ++ s2)
| L_alt_l a b s : lang a s -> lang (Alt a b) s
| L_alt_r a b s : lang b s -> lang (Alt a b) s
| L_star_nil a : lang (Star a) ""
| L_star_app a s1 s2 : lang a s1 -> lang (Star a) s2 -> lang (Star a) (s1 ++ s2)
| L_plus a s1 s2 : lang a s1 -> lang (Star a) s2 -> lang (Plus a) (s1 ++ s2).

End RegExp.

(** ** Node's [path] module *)

(** The Path Resolver calls [path.basename(p)] and [path.dirname(p)]; which
    implementation answers (POSIX or Windows) depends on the platform, so
    the resolver takes them as an argument. *)
Record NodePath := {
  path_basename : string -> string;
  path_dirname : string -> string
}.

Module Posix.

(** [path.posix.basename(p)]: scan from the end, skip trailing slashes,
    stop at the slash before the last component. *)
Fixpoint basename_loop (p : string) (n : nat) (end_ : option nat) (matchedSlash : bool)
  : nat * option nat :=
  match n with
  | O => (0, end_)
  | S i =>
      match String.get i p with
      | None => (0, end_)
      | Some c =>
          if Ascii.eqb c Js.slash then
            if matchedSlash then basename_loop p i end_ matchedSlash
            else (i + 1, end_)
          else
            match end_ with
            | None => basename_loop p i (Some (i + 1)) false
            | Some _ => basename_loop p i end_ matchedSlash
            end
      end
  end.

Definition basename (p : string) : string :=
  match basename_loop p (String.length p) None true with
  | (_, None) => ""
  | (start, Some e) => substring start (e - start) p
  end.

(** [path.posix.dirname(p)]: the loop runs from the last index down to
    index 1 and yields the index of the slash that ends the directory. *)
Fixpoint dirname_loop (p : string) (i : nat) (matchedSlash : bool) : option nat :=
  match i with
  | O => None
  | S i' =>
      match String.get i p with
      | None => None
      | Some c =>
          if Ascii.eqb c Js.slash then
            if matchedSlash then dirname_loop p i' true else Some i
          else dirname_loop p i' false
      end
  end.

Definition dirname (p : string) : string :=
  match p with
  | EmptyString => "."
  | String c _ =>
      let hasRoot := Ascii.eqb c Js.slash in
      match dirname_loop p (String.length p - 1) true with
      | None => if hasRoot then "/" else "."
      | Some e => if hasRoot && Nat.eqb e 1 then "//" else substring 0 e p
      end
  end.

Definition path : NodePath := {| path_basename := basename; path_dirname := dirname |}.

End Posix.

(** ** Path Resolver *)

(** [Git.normalizePath(fileName, repoPath?)]; the second parameter is not
    used by the body. *)
Definition normalizePath (fileName : string) (repoPath : option string) : string :=
  Js.replaceAllChar Js.backslash Js.slash fileName.

(** [if (repoPath)]: an optional string passes when it is given and not
    empty. *)
Definition given (repoPath : option string) : option string :=
  match repoPath with
  | Some r => if String.eqb r "" then None else Some r
  | None => None
  end.

(** [Git.splitPath(fileName, repoPath?)] *)
Definition splitPath (P : NodePath) (fileName : string) (repoPath : option string)
  : string * string :=
  match given repoPath with
  | Some r => (Js.replace (r ++ "/") "" fileName, r)
  | None =>
      (Js.replaceAllChar Js.backslash Js.slash (path_basename P fileName),
       Js.replaceAllChar Js.backslash Js.slash (path_dirname P fileName))
  end.

(** [UncommittedRegex = /^[0]+$/] *)
Definition UncommittedRegex : RegExp.t :=
  {| RegExp.from_start := true;
     RegExp.body := RegExp.Plus (RegExp.Class ["0"%char]);
     RegExp.to_end := true |}.

(** [Git.isUncommitted(sha)] *)
Definition isUncommitted (sha : string) : bool :=
  RegExp.test UncommittedRegex sha.

(** ** The world the module acts on *)

(** [Logger.log] is the informational level. *)
Inductive Level := Info | Warn | Error.

Record LogEntry := { level : Level; parts : list Js.Value }.

Record SpawnCall := { exe : string; argv : list string; cwd : string }.

Record World := {
  git_path : string;                 (* [git.path] of the module-level handle,
                                        once [Git.repoPath] has resolved it *)
  spawned : list SpawnCall;          (* child processes, oldest first *)
  logged : list LogEntry;            (* log entries, oldest first *)
  files : list (string * string)     (* temporary files and their content *)
}.

(** A promise as its holder finds it once the callbacks have run. *)
Inductive Promise (A : Type) :=
| Pending
| Fulfilled (value : A)
| Rejected (reason : Js.Value).
Arguments Pending {A}.
Arguments Fulfilled {A} value.
Arguments Rejected {A} reason.

Definition M (A : Type) : Type := World -> A * World.

Definition ret {A} (a : A) : M A := fun w => (a, w).

Definition bind {A B} (m : M A) (k : A -> M B) : M B :=
  fun w => let (a, w') := m w in k a w'.

Notation "x <- m ;; k" := (bind m (fun x => k))
  (at level 61, m at next level, right associativity).
Notation "m ;; k" := (bind m (fun _ => k))
  (at level 61, right associativity).

Definition gets {A} (f : World -> A) : M A := fun w => (f w, w).

Definition emit (l : Level) (ps : list Js.Value) : M unit :=
  fun w => (tt, {| git_path := git_path w;
                   spawned := spawned w;
                   logged := logged w ++ [{| level := l; parts := ps |}];
                   files := files w |}).

Definition Logger_log := emit Info.
Definition Logger_warn := emit Warn.
Definition Logger_error := emit Error.

(** What [spawnPromise(exe, args, { cwd })] settles with: the captured
    standard output, or the value it rejects with. *)
Definition Spawner := string -> list string -> string -> string + Js.Value.

Section Core.

Variable P : NodePath.
Variable spawnPromise : Spawner.

Definition spawn (exe : string) (args : list string) (cwd : string)
  : M (string + Js.Value) :=
  fun w => (spawnPromise exe args cwd,
            {| git_path := git_path w;
               spawned := spawned w ++ [{| exe := exe; argv := args; cwd := cwd |}];
               logged := logged w;
               files := files w |}).

(** ** Process Invoker: [gitCommand(cwd, ...args)] *)
Definition gitCommand (cwd : string) (args : list string) : M (Promise string) :=
  git <- gets git_path ;;
  r <- spawn git args cwd ;;
  match r with
  | inl s =>
      Logger_log (Js.VString "git" :: map Js.VString args
                    ++ [Js.VString ("  cwd='" ++ cwd ++ "'")]) ;;
      ret (Fulfilled s)
  | inr ex =>
      let msg := Js.and ex (Js.VString (Js.toString ex)) in
      let detail :=
        Js.and msg (Js.VString (String Js.LF "  "
                                  ++ Js.replaceLineBreaks (Js.toString msg))) in
      (if Js.truthy msg
          && (Js.includes "Not a git repository" (Js.toString msg)
              || Js.includes "is outside repository" (Js.toString msg)
              || Js.includes "no such path" (Js.toString msg))
       then Logger_warn (Js.VString "git" :: map Js.VString args
                           ++ [Js.VString ("  cwd='" ++ cwd ++ "'"); detail])
       else Logger_error (Js.VString "git" :: map Js.VString args
                            ++ [Js.VString ("  cwd='" ++ cwd ++ "'"); detail])) ;;
      ret (Rejected ex)
  end.

(** ** Revision Reader *)

Definition logFormat : string :=
  "--format=%H -%nauthor %an%nauthor-date %ai%ncommitter %cn%ncommitter-date %ci%nsummary %s%nfilename ?".

(** [Git.log(fileName, repoPath?)] *)
Definition log (fileName : string) (repoPath : option string) : M (Promise string) :=
  let '(file, root) := splitPath P (normalizePath fileName None) repoPath in
  gitCommand root ["log"; "--follow"; "--name-only"; "--no-merges"; logFormat; file].

(** [Git.logRange(fileName, start, end, repoPath?)] *)
Definition logRange (fileName : string) (start end_ : N) (repoPath : option string)
  : M (Promise string) :=
  let '(file, root) := splitPath P (normalizePath fileName None) repoPath in
  gitCommand root ["log"; "--name-only"; "--no-merges"; logFormat;
                   "-L " ++ Js.numberToString start ++ "," ++ Js.numberToString end_
                     ++ ":" ++ file].

(** [Git.getVersionedFileText(fileName, repoPath, sha)] *)
Definition getVersionedFileText (fileName repoPath sha : string) : M (Promise string) :=
  let '(file, root) := splitPath P (normalizePath fileName None) (Some repoPath) in
  let sha := Js.replace "^" "" sha in
  if isUncommitted sha
  then ret (Rejected (Js.VError ("sha=" ++ sha ++ " is uncommitted")))
  else gitCommand root ["show"; sha ++ ":./" ++ file].

(** ** Materializer *)

Section Materializer.

(** [path.extname(p)] and [path.basename(p, ext)] *)
Variable path_extname : string -> string.
Variable path_basename_ext : string -> string -> string.
(** [tmp.file({ prefix, postfix }, cb)] calls back with [(err, destination)]
    and [fs.appendFile(destination, data, cb)] with [err]. *)
Variable tmp_file : string -> string -> Js.Value * string.
Variable fs_appendFile : string -> string -> Js.Value.

Fixpoint append_content (destination data : string) (fs : list (string * string))
  : list (string * string) :=
  match fs with
  | [] => [(destination, data)]
  | (p, c) :: fs' =>
      if String.eqb p destination then (p, c ++ data) :: fs'
      else (p, c) :: append_content destination data fs'
  end.

Definition with_files (f : list (string * string) -> list (string * string)) : M unit :=
  fun w => (tt, {| git_path := git_path w;
                   spawned := spawned w;
                   logged := logged w;
                   files := f (files w) |}).

Definition tmpFile (prefix postfix : string) : M (Js.Value * string) :=
  let '(err, destination) := tmp_file prefix postfix in
  (if Js.truthy err then ret tt else with_files (cons (destination, ""))) ;;
  ret (err, destination).

Definition appendFile (destination data : string) : M Js.Value :=
  let err := fs_appendFile destination data in
  (if Js.truthy err then ret tt else with_files (append_content destination data)) ;;
  ret err.

(** [p.then(onFulfilled)] inside the executor of [new Promise]: the
    callback is the only holder of [resolve] and [reject], and no rejection
    handler is attached to [p]. *)
Definition then_ {A B} (p : Promise A) (onFulfilled : A -> M (Promise B))
  : M (Promise B) :=
  match p with
  | Fulfilled data => onFulfilled data
  | Rejected _ => ret Pending
  | Pending => ret Pending
  end.

(** [Git.getVersionedFile(fileName, repoPath, sha)]: the state of the
    promise it returns. *)
Definition getVersionedFile (fileName repoPath sha : string) : M (Promise string) :=
  p <- getVersionedFileText fileName repoPath sha ;;
  then_ p (fun data =>
    let ext := path_extname fileName in
    t <- tmpFile (path_basename_ext fileName ext ++ "-" ++ sha ++ "__") ext ;;
    let '(err, destination) := t in
    if Js.truthy err then ret (Rejected err)
    else
      err <- appendFile destination data ;;
      if Js.truthy err then ret (Rejected err)
      else ret (Fulfilled destination)).

End Materializer.

End Core.

(** The processes an operation spawns when run in [w]. *)
Definition spawns {A} (m : M A) (w : World) : list SpawnCall :=
  skipn (length (spawned w)) (spawned (snd (m w))).

(** The log entries an operation writes when run in [w]. *)
Definition logs {A} (m : M A) (w : World) : list LogEntry :=
  skipn (length (logged w)) (logged (snd (m w))).

(** A sample world and sample child-process behaviours for the examples. *)
Definition world0 : World :=
  {| git_path := "git"; spawned := []; logged := []; files := [] |}.

Definition spawn_ok : Spawner := fun _ _ _ => inl "ok".

Definition spawn_failing (message : string) : Spawner :=
  fun _ _ _ => inr (Js.VError message).

(** The entry [gitCommand] writes and the promise it returns, by outcome of
    the child process. *)
Definition failureDetail (ex : Js.Value) : Js.Value :=
  Js.and (Js.and ex (Js.VString (Js.toString ex)))
         (Js.VString (String Js.LF "  "
            ++ Js.replaceLineBreaks
                 (Js.toString (Js.and ex (Js.VString (Js.toString ex)))))).

Definition benign (ex : Js.Value) : bool :=
  Js.includes "Not a git repository" (Js.toString ex)
  || Js.includes "is outside repository" (Js.toString ex)
  || Js.includes "no such path" (Js.toString ex).

Definition after_gitCommand (cwd : string) (args : list string) (e : LogEntry) (w : World)
  : World :=
  {| git_path := git_path w;
     spawned := spawned w ++ [{| exe := git_path w; argv := args; cwd := cwd |}];
     logged := logged w ++ [e];
     files := files w |}.

(** The strings made of the character '0' only. *)
Definition zeros (s : string) : Prop :=
  forall c, In c (list_ascii_of_string s) -> c = "0"%char.

(** ** The remaining query shapes: repository root and blame *)

(** [GitBlameFormat]: the three flags a caller chooses from. *)
Inductive GitBlameFormat := incremental | linePorcelain | porcelain.

Definition blameFlag (format : GitBlameFormat) : string :=
  match format with
  | incremental => "--incremental"
  | linePorcelain => "--line-porcelain"
  | porcelain => "--porcelain"
  end.

(** [git = ...]: the module-level handle is replaced. *)
Definition set_git (p : string) : M unit :=
  fun w => (tt, {| git_path := p;
                   spawned := spawned w;
                   logged := logged w;
                   files := files w |}).

Section Queries.

Variable P : NodePath.
Variable spawnPromise : Spawner.
(** [findGitPath(gitPath)] of [./gitLocator], which this file only
    imports: the [path] of the handle it resolves with, or the value it
    rejects with. *)
Variable findGitPath : option string -> string + Js.Value.

(** [Git.repoPath(cwd, gitPath?)]; an [await] on a rejected promise throws,
    which rejects the promise of the [async] function with the same value. *)
Definition repoPath (cwd : string) (gitPath : option string) : M (Promise string) :=
  match findGitPath gitPath with
  | inr reason => ret (Rejected reason)
  | inl found =>
      set_git found ;;
      p <- gitCommand spawnPromise cwd ["rev-parse"; "--show-toplevel"] ;;
      match p with
      | Fulfilled data =>
          ret (Fulfilled (Js.replaceAllChar Js.backslash Js.slash
                            (Js.removeLineBreaks data)))
      | Rejected reason => ret (Rejected reason)
      | Pending => ret Pending
      end
  end.

(** [Git.blame(format, fileName, sha?, repoPath?)] *)
Definition blame (format : GitBlameFormat) (fileName : string)
           (sha repoPath : option string) : M (Promise string) :=
  let '(file, root) := splitPath P (normalizePath fileName None) repoPath in
  match given sha with
  | Some sha =>
      gitCommand spawnPromise root
        ["blame"; blameFlag format; "--root"; sha ++ "^"; "--"; file]
  | None =>
      gitCommand spawnPromise root ["blame"; blameFlag format; "--root"; "--"; file]
  end.

(** [Git.blameLines(format, fileName, startLine, endLine, sha?, repoPath?)] *)
Definition blameLines (format : GitBlameFormat) (fileName : string)
           (startLine endLine : N) (sha repoPath : option string) : M (Promise string) :=
  let '(file, root) := splitPath P (normalizePath fileName None) repoPath in
  match given sha with
  | Some sha =>
      gitCommand spawnPromise root
        ["blame"; "-L " ++ Js.numberToString startLine ++ "," ++ Js.numberToString endLine;
         blameFlag format; "--root"; sha ++ "^"; "--"; file]
  | None =>
      gitCommand spawnPromise root
        ["blame"; "-L " ++ Js.numberToString startLine ++ "," ++ Js.numberToString endLine;
         blameFlag format; "--root"; "--"; file]
  end.

End Queries.


(** The characters of a string, and strings free of a character. *)
Definition chars (s : string) : list ascii := list_ascii_of_string s.

Definition lacks (c : ascii) (s : string) : Prop := ~ In c (chars s).

(** An operation that spawns at most one process, through the current
    handle, and none without writing a log entry; that writes at most one
    entry; that keeps what was recorded before; and that leaves the handle
    and the files alone. *)
Definition single_shot {A} (m : M A) : Prop :=
  forall w, exists calls entries,
    spawned (snd (m w)) = (spawned w ++ calls)%list /\
    logged (snd (m w)) = (logged w ++ entries)%list /\
    length calls <= length entries /\
    length entries <= 1 /\
    (forall c, In c calls -> exe c = git_path w) /\
    git_path (snd (m w)) = git_path w /\
    files (snd (m w)) = files w.

(** An operation whose one log entry names the command [args] in the
    directory [dir], and that spawns nothing but that command, once at
    most. *)
Definition runs_only {A} (m : M A) (w : World) (dir : string) (args : list string) : Prop :=
  (exists e rest,
      logs m w = [e] /\
      parts e = (Js.VString "git" :: map Js.VString args
                   ++ Js.VString ("  cwd='" ++ dir ++ "'") :: rest)%list) /\
  length (spawns m w) <= 1 /\
  (forall c, In c (spawns m w) ->
             c = {| exe := git_path w; argv := args; cwd := dir |}).

(** More sample behaviours for the examples: a tool that prints [out], a
    locator that answers [found] or fails, and a temp-file facility that
    always succeeds. *)
Definition spawn_printing (out : string) : Spawner := fun _ _ _ => inl out.

Definition locate_at (found : string) : option string -> string + Js.Value :=
  fun _ => inl found.

Definition locate_failing (message : string) : option string -> string + Js.Value :=
  fun _ => inr (Js.VError message).

Definition sample_extname : string -> string := fun _ => ".ts".
Definition sample_basename_ext : string -> string -> string := fun _ _ => "a".
Definition sample_tmp_file : string -> string -> Js.Value * string :=
  fun prefix postfix => (Js.VNull, "/tmp/" ++ prefix ++ "k3x" ++ postfix).
Definition sample_appendFile : string -> string -> Js.Value := fun _ _ => Js.VNull.

(** * Properties *)

(** ** Facts about the string primitives *)

Module JsFacts.
Import Js.

Lemma startsWith_app (p s : string) : startsWith p (p ++ s) = true.
Proof.
  induction p as [|a p IH]; simpl; [reflexivity|].
  now rewrite Ascii.eqb_refl, IH.
Qed.

Lemma drop_app (p s : string) : drop (String.length p) (p ++ s) = s.
Proof. induction p as [|a p IH]; simpl; auto. Qed.

Lemma startsWith_split (p s : string) :
  startsWith p s = true -> s = p ++ drop (String.length p) s.
Proof.
  revert s; induction p as [|a p IH]; intros s H; simpl in *; [reflexivity|].
  destruct s as [|b s]; [discriminate|].
  apply andb_true_iff in H as [Hab Hps].
  apply Ascii.eqb_eq in Hab; subst b.
  simpl. f_equal. now apply IH.
Qed.

Lemma startsWith_includes (p s : string) :
  startsWith p s = true -> includes p s = true.
Proof. intros H; destruct s; simpl in *; rewrite H; reflexivity. Qed.

Lemma replace_unfold (p r s : string) :
  replace p r s =
  if startsWith p s then r ++ drop (String.length p) s
  else match s with
       | EmptyString => EmptyString
       | String c s' => String c (replace p r s')
       end.
Proof. destruct s; reflexivity. Qed.

Lemma replace_at_start (p r s : string) :
  startsWith p s = true -> replace p r s = r ++ drop (String.length p) s.
Proof. intros H; rewrite replace_unfold, H; reflexivity. Qed.

Lemma replace_absent (p r s : string) :
  includes p s = false -> replace p r s = s.
Proof.
  induction s as [|c s IH]; intros H; rewrite replace_unfold.
  - simpl in H. apply orb_false_iff in H as [H _]. now rewrite H.
  - simpl in H. apply orb_false_iff in H as [H1 H2].
    simpl. simpl in H1. rewrite H1. now rewrite IH.
Qed.

Lemma replaceAllChar_length (a b : ascii) (s : string) :
  String.length (replaceAllChar a b s) = String.length s.
Proof. induction s; simpl; auto. Qed.

Lemma replaceAllChar_get (a b : ascii) (s : string) (i : nat) :
  String.get i (replaceAllChar a b s) =
  option_map (fun c => if Ascii.eqb c a then b else c) (String.get i s).
Proof.
  revert i; induction s as [|c s IH]; intros i; simpl; [reflexivity|].
  destruct i; simpl; auto.
Qed.

Lemma replaceAllChar_fixed (a b : ascii) (s : string) :
  (forall i, String.get i s <> Some a) -> replaceAllChar a b s = s.
Proof.
  induction s as [|c s IH]; intros H; simpl; [reflexivity|].
  destruct (Ascii.eqb c a) eqn:E.
  - apply Ascii.eqb_eq in E; subst c. now specialize (H 0).
  - f_equal. apply IH. intros i. exact (H (S i)).
Qed.

End JsFacts.

(** ** The matcher decides the language of a pattern *)

Module RegExpFacts.
Import RegExp.

Lemma append_empty (s1 s2 : string) : s1 ++ s2 = "" -> s1 = "" /\ s2 = "".
Proof. destruct s1; simpl; [auto | discriminate]. Qed.

Lemma mem_In (c : ascii) (cs : list ascii) : mem c cs = true <-> In c cs.
Proof.
  unfold mem. rewrite existsb_exists. split.
  - intros [x [Hx E]]. apply Ascii.eqb_eq in E. now subst.
  - intros H. exists c. split; [assumption | apply Ascii.eqb_refl].
Qed.

Lemma lang_seq_inv (a b : re) (s : string) :
  lang (Seq a b) s -> exists s1 s2, s = s1 ++ s2 /\ lang a s1 /\ lang b s2.
Proof. intros H. inversion H; subst. eauto. Qed.

Lemma lang_plus_inv (a : re) (s : string) :
  lang (Plus a) s -> exists s1 s2, s = s1 ++ s2 /\ lang a s1 /\ lang (Star a) s2.
Proof. intros H. inversion H; subst. eauto. Qed.

Lemma lang_alt_inv (a b : re) (s : string) :
  lang (Alt a b) s -> lang a s \/ lang b s.
Proof. intros H. inversion H; subst; auto. Qed.

Lemma lang_class_inv (cs : list ascii) (s : string) :
  lang (Class cs) s -> exists c, s = String c "" /\ In c cs.
Proof. intros H. inversion H; subst. eauto. Qed.

Lemma nullable_lang (r : re) : nullable r = true <-> lang r "".
Proof.
  induction r as [| |cs|a IHa b IHb|a IHa b IHb|a IHa|a IHa]; simpl.
  - split; [discriminate | inversion 1].
  - split; [constructor | reflexivity].
  - split; [discriminate | inversion 1].
  - rewrite andb_true_iff, IHa, IHb. split.
    + intros [Ha Hb]. change "" with ("" ++ ""). now constructor.
    + intros H. apply lang_seq_inv in H as (s1 & s2 & E & H1 & H2).
      symmetry in E. apply append_empty in E as [-> ->]. now split.
  - rewrite orb_true_iff, IHa, IHb. split.
    + intros [H|H]; [now apply L_alt_l | now apply L_alt_r].
    + intros H; apply lang_alt_inv in H; assumption.
  - split; [constructor | reflexivity].
  - rewrite IHa. split.
    + intros Ha. change "" with ("" ++ ""). constructor; [assumption | constructor].
    + intros H. apply lang_plus_inv in H as (s1 & s2 & E & H1 & H2).
      symmetry in E. apply append_empty in E as [-> ->]. assumption.
Qed.

(** A non-empty word of [a*] starts with a non-empty word of [a]. *)
Lemma star_head (a : re) (t : string) :
  lang (Star a) t -> forall c s, t = String c s ->
  exists s1 s2, s = s1 ++ s2 /\ lang a (String c s1) /\ lang (Star a) s2.
Proof.
  intros H. remember (Star a) as r eqn:Er.
  induction H as [| | | | | |a' s1 s2 H1 _ H2 IH2|]; try discriminate.
  injection Er as ->. intros c s E.
  destruct s1 as [|d s1]; simpl in E.
  - now apply IH2.
  - injection E as -> <-. now exists s1, s2.
Qed.

(** Splitting [s1 ++ s2 = String c s] on whether [s1] is empty. *)
Lemma append_cons (s1 s2 : string) (c : ascii) (s : string) :
  s1 ++ s2 = String c s ->
  (s1 = "" /\ s2 = String c s) \/ (exists t, s1 = String c t /\ s = t ++ s2).
Proof.
  destruct s1 as [|d s1]; simpl; intros E.
  - now left.
  - injection E as -> <-. right. now exists s1.
Qed.

Lemma lang_seq_cons (a b : re) (c : ascii) (s1 s2 : string) :
  lang a (String c s1) -> lang b s2 -> lang (Seq a b) (String c (s1 ++ s2)).
Proof. intros Ha Hb. change (lang (Seq a b) (String c s1 ++ s2)). now constructor. Qed.

Lemma lang_star_cons (a : re) (c : ascii) (s1 s2 : string) :
  lang a (String c s1) -> lang (Star a) s2 -> lang (Star a) (String c (s1 ++ s2)).
Proof. intros Ha Hb. change (lang (Star a) (String c s1 ++ s2)). now constructor. Qed.

Lemma lang_plus_cons (a : re) (c : ascii) (s1 s2 : string) :
  lang a (String c s1) -> lang (Star a) s2 -> lang (Plus a) (String c (s1 ++ s2)).
Proof. intros Ha Hb. change (lang (Plus a) (String c s1 ++ s2)). now constructor. Qed.

Lemma deriv_lang (c : ascii) (r : re) (s : string) :
  lang (deriv c r) s <-> lang r (String c s).
Proof.
  revert s.
  induction r as [| |cs|a IHa b IHb|a IHa b IHb|a IHa|a IHa]; intros s; simpl.
  - split; inversion 1.
  - split; inversion 1.
  - destruct (mem c cs) eqn:E.
    + apply mem_In in E. split.
      * intros H. inversion H; subst. now constructor.
      * intros H. apply lang_class_inv in H as (d & [= <- ->] & _). constructor.
    + split; [inversion 1|].
      intros H. apply lang_class_inv in H as (d & [= <- ->] & Hd).
      apply mem_In in Hd. congruence.
  - split.
    + intros H. destruct (nullable a) eqn:Na.
      * apply lang_alt_inv in H as [H|H].
        -- apply lang_seq_inv in H as (s1 & s2 & -> & H1 & H2).
           apply lang_seq_cons; [now apply IHa | assumption].
        -- apply IHb in H. apply nullable_lang in Na.
           change (lang (Seq a b) ("" ++ String c s)). now constructor.
      * apply lang_seq_inv in H as (s1 & s2 & -> & H1 & H2).
        apply lang_seq_cons; [now apply IHa | assumption].
    + intros H. apply lang_seq_inv in H as (s1 & s2 & E & H1 & H2).
      symmetry in E. apply append_cons in E as [[-> ->]|(t & -> & ->)].
      * apply nullable_lang in H1. rewrite H1.
        apply L_alt_r. now apply IHb.
      * apply IHa in H1.
        destruct (nullable a); [apply L_alt_l|]; now constructor.
  - split.
    + intros H; apply lang_alt_inv in H as [H|H];
        [apply L_alt_l; now apply IHa | apply L_alt_r; now apply IHb].
    + intros H; apply lang_alt_inv in H as [H|H];
        [apply L_alt_l; now apply IHa | apply L_alt_r; now apply IHb].
  - split.
    + intros H. apply lang_seq_inv in H as (s1 & s2 & -> & H1 & H2).
      apply lang_star_cons; [now apply IHa | assumption].
    + intros H. destruct (star_head a _ H c s eq_refl) as (s1 & s2 & -> & H1 & H2).
      constructor; [now apply IHa | assumption].
  - split.
    + intros H. apply lang_seq_inv in H as (s1 & s2 & -> & H1 & H2).
      apply lang_plus_cons; [now apply IHa | assumption].
    + intros H. apply lang_plus_inv in H as (s1 & s2 & E & H1 & H2).
      symmetry in E. apply append_cons in E as [[-> ->]|(t & -> & ->)].
      * destruct (star_head a _ H2 c s eq_refl) as (t1 & t2 & -> & K1 & K2).
        constructor; [now apply IHa | assumption].
      * constructor; [now apply IHa | assumption].
Qed.

Lemma accepts_lang (r : re) (s : string) : accepts r s = true <-> lang r s.
Proof.
  revert r; induction s as [|c s IH]; intros r; simpl.
  - apply nullable_lang.
  - rewrite IH. apply deriv_lang.
Qed.

Lemma zeros_cons (c : ascii) (s : string) :
  zeros (String c s) <-> c = "0"%char /\ zeros s.
Proof.
  unfold zeros; simpl. split.
  - intros H. split; [apply H; now left | intros d Hd; apply H; now right].
  - intros [-> H] d [<-|Hd]; [reflexivity | now apply H].
Qed.

Lemma class_zero_lang (s : string) :
  lang (Class ["0"%char]) s <-> s = "0".
Proof.
  split.
  - intros H. apply lang_class_inv in H as (d & -> & [<-|[]]). reflexivity.
  - intros ->. constructor. now left.
Qed.

Lemma star_zero_lang (s : string) :
  lang (Star (Class ["0"%char])) s <-> zeros s.
Proof.
  split.
  - intros H. remember (Star (Class ["0"%char])) as r eqn:Er.
    induction H as [| | | | | |a s1 s2 H1 _ H2 IH2|]; try discriminate.
    + intros c [].
    + injection Er as ->. apply class_zero_lang in H1 as ->.
      simpl. apply zeros_cons. split; [reflexivity | now apply IH2].
  - induction s as [|c s IH]; intros H.
    + constructor.
    + apply zeros_cons in H as [-> H].
      change (lang (Star (Class ["0"%char])) ("0" ++ s)).
      constructor; [now apply class_zero_lang | now apply IH].
Qed.

Lemma plus_zero_lang (s : string) :
  lang (Plus (Class ["0"%char])) s <-> s <> "" /\ zeros s.
Proof.
  split.
  - intros H. apply lang_plus_inv in H as (s1 & s2 & -> & H1 & H2).
    apply class_zero_lang in H1 as ->. split; [discriminate|].
    simpl. apply zeros_cons. split; [reflexivity | now apply star_zero_lang].
  - intros [Hne Hz]. destruct s as [|c s]; [congruence|].
    apply zeros_cons in Hz as [-> Hz].
    change (lang (Plus (Class ["0"%char])) ("0" ++ s)).
    constructor; [now apply class_zero_lang | now apply star_zero_lang].
Qed.

End RegExpFacts.

(** ** Path Resolver *)

Lemma given_nonempty (root : string) : root <> "" -> given (Some root) = Some root.
Proof.
  intros H. unfold given. destruct (String.eqb root "") eqn:E; [|reflexivity].
  apply String.eqb_eq in E. contradiction.
Qed.

Lemma splitPath_given (P : NodePath) (path root : string) :
  root <> "" -> splitPath P path (Some root) = (Js.replace (root ++ "/") "" path, root).
Proof. intros H. unfold splitPath. now rewrite given_nonempty. Qed.

(** C8: [normalizePath(p)] is [p] with every backslash replaced by a forward
    slash and every other character kept in place, so the result has no
    backslash; normalizing twice is the same as normalizing once. *)
Theorem normalizePath_replaces_backslashes (p : string) (repoPath : option string) :
  String.length (normalizePath p repoPath) = String.length p /\
  (forall i, String.get i (normalizePath p repoPath) =
             option_map (fun c => if Ascii.eqb c Js.backslash then Js.slash else c)
                        (String.get i p)) /\
  (forall i, String.get i (normalizePath p repoPath) <> Some Js.backslash) /\
  normalizePath (normalizePath p repoPath) repoPath = normalizePath p repoPath.
Proof.
  assert (Hno : forall i, String.get i (normalizePath p repoPath) <> Some Js.backslash).
  { intros i. unfold normalizePath. rewrite JsFacts.replaceAllChar_get.
    destruct (String.get i p) as [c|]; simpl; [|discriminate].
    destruct (Ascii.eqb c Js.backslash) eqn:E.
    - discriminate.
    - intros [= ->]. now rewrite Ascii.eqb_refl in E. }
  repeat split.
  - apply JsFacts.replaceAllChar_length.
  - intros i. apply JsFacts.replaceAllChar_get.
  - exact Hno.
  - unfold normalizePath at 1. now apply JsFacts.replaceAllChar_fixed.
Qed.

(** C7, amended: for every non-empty root and every path that begins with
    [root + "/"], [splitPath(path, root)] returns the path with exactly that
    leading prefix removed, and the root unchanged. *)
Theorem splitPath_strips_root_prefix (P : NodePath) (path root : string) :
  root <> "" ->
  Js.startsWith (root ++ "/") path = true ->
  splitPath P path (Some root) = (Js.drop (String.length (root ++ "/")) path, root) /\
  path = (root ++ "/") ++ fst (splitPath P path (Some root)).
Proof.
  intros Hroot Hpre.
  rewrite splitPath_given by assumption.
  rewrite JsFacts.replace_at_start by assumption. simpl.
  split; [reflexivity | now apply JsFacts.startsWith_split].
Qed.

Lemma splitPath_strips_root_prefix_witness :
  "/repo" <> "" /\
  Js.startsWith ("/repo" ++ "/") "/repo/src/a.ts" = true /\
  splitPath Posix.path "/repo/src/a.ts" (Some "/repo") = ("src/a.ts", "/repo").
Proof.
  split; [discriminate|]. split; [reflexivity|].
  exact (proj1 (splitPath_strips_root_prefix Posix.path "/repo/src/a.ts" "/repo"
                  ltac:(discriminate) eq_refl)).
Defined.

(** C7 as written fails at the empty root: [if (repoPath)] sends [""] to the
    branch for an omitted root, which answers with basename and dirname. *)
Lemma splitPath_empty_root_counterexample :
  Js.startsWith ("" ++ "/") "/a/b.ts" = true /\
  splitPath Posix.path "/a/b.ts" (Some "") = ("b.ts", "/a") /\
  splitPath Posix.path "/a/b.ts" (Some "")
    <> (Js.drop (String.length ("" ++ "/")) "/a/b.ts", "").
Proof. split; [reflexivity|]. split; [reflexivity | discriminate]. Qed.

(** C3, amended: for every non-empty root and every path in which
    [root + "/"] does not occur at all, [splitPath(path, root)] returns the
    path unchanged and echoes the root. *)
Theorem splitPath_without_root_unchanged (P : NodePath) (path root : string) :
  root <> "" ->
  Js.includes (root ++ "/") path = false ->
  splitPath P path (Some root) = (path, root).
Proof.
  intros Hroot Habs.
  rewrite splitPath_given by assumption.
  now rewrite JsFacts.replace_absent.
Qed.

Lemma splitPath_without_root_unchanged_witness :
  "/repo" <> "" /\
  Js.includes ("/repo" ++ "/") "/other/src/a.ts" = false /\
  splitPath Posix.path "/other/src/a.ts" (Some "/repo") = ("/other/src/a.ts", "/repo").
Proof.
  split; [discriminate|]. split; [reflexivity|].
  exact (splitPath_without_root_unchanged Posix.path "/other/src/a.ts" "/repo"
           ltac:(discriminate) eq_refl).
Defined.

(** C3 as written fails where [root + "/"] occurs inside a path that does
    not start with it: the first occurrence is cut out of the middle.  It
    also fails at the empty root, which is treated as omitted. *)
Lemma splitPath_mismatch_counterexample :
  (Js.startsWith ("/proj" ++ "/") "/home/proj/a.ts" = false /\
   splitPath Posix.path "/home/proj/a.ts" (Some "/proj") = ("/homea.ts", "/proj") /\
   splitPath Posix.path "/home/proj/a.ts" (Some "/proj") <> ("/home/proj/a.ts", "/proj")) /\
  (Js.startsWith ("" ++ "/") "a/b.ts" = false /\
   splitPath Posix.path "a/b.ts" (Some "") = ("b.ts", "a") /\
   splitPath Posix.path "a/b.ts" (Some "") <> ("a/b.ts", "")).
Proof. repeat split; try reflexivity; discriminate. Qed.

(** ** The uncommitted sentinel *)

(** C10: [isUncommitted(sha)] is true exactly when [sha] is non-empty and
    made of the character '0' only; so it is true of "0" and "00" as well as
    of the 40-character sentinel, and false of the empty string. *)
Theorem isUncommitted_iff_zeros :
  (forall sha,
      isUncommitted sha = true <->
      sha <> "" /\ (forall c, In c (list_ascii_of_string sha) -> c = "0"%char)) /\
  isUncommitted "0" = true /\
  isUncommitted "00" = true /\
  isUncommitted "0000000000000000000000000000000000000000" = true /\
  isUncommitted "" = false.
Proof.
  split; [|repeat split; reflexivity].
  intros sha. unfold isUncommitted, RegExp.test, RegExp.match_here; simpl.
  rewrite RegExpFacts.accepts_lang. apply RegExpFacts.plus_zero_lang.
Qed.

(** ** Process Invoker *)

Lemma skipn_past {A} (l extra : list A) : skipn (length l) (l ++ extra) = extra.
Proof. induction l; simpl; auto. Qed.

Lemma failure_test (ex : Js.Value) :
  let msg := Js.and ex (Js.VString (Js.toString ex)) in
  Js.truthy msg
  && (Js.includes "Not a git repository" (Js.toString msg)
      || Js.includes "is outside repository" (Js.toString msg)
      || Js.includes "no such path" (Js.toString msg))
  = benign ex.
Proof.
  destruct ex as [| |s|m]; try reflexivity.
  - destruct s; reflexivity.
  - unfold benign, Js.and; simpl. destruct (String.eqb m ""); reflexivity.
Qed.

Lemma gitCommand_succeeds (sp : Spawner) (cwd : string) (args : list string)
      (w : World) (out : string) :
  sp (git_path w) args cwd = inl out ->
  gitCommand sp cwd args w =
  (Fulfilled out,
   after_gitCommand cwd args
     {| level := Info;
        parts := Js.VString "git" :: map Js.VString args
                   ++ [Js.VString ("  cwd='" ++ cwd ++ "'")] |} w).
Proof.
  intros H. unfold gitCommand, bind, gets, spawn. simpl. rewrite H. reflexivity.
Qed.

Lemma gitCommand_fails (sp : Spawner) (cwd : string) (args : list string)
      (w : World) (ex : Js.Value) :
  sp (git_path w) args cwd = inr ex ->
  gitCommand sp cwd args w =
  (Rejected ex,
   after_gitCommand cwd args
     {| level := if benign ex then Warn else Error;
        parts := Js.VString "git" :: map Js.VString args
                   ++ [Js.VString ("  cwd='" ++ cwd ++ "'"); failureDetail ex] |} w).
Proof.
  intros H. unfold gitCommand, bind, gets, spawn. simpl. rewrite H.
  rewrite failure_test. destruct (benign ex); reflexivity.
Qed.

(** C4, amended: on every failing invocation [gitCommand] logs at warning
    level exactly when the failure message contains "Not a git repository"
    (capital N, the match is case-sensitive), "is outside repository" or
    "no such path", logs at error level for every other message, and in both
    cases rejects with the very value the child process failed with. *)
Theorem gitCommand_failure_classification (sp : Spawner) (cwd : string)
        (args : list string) (w : World) (ex : Js.Value) :
  sp (git_path w) args cwd = inr ex ->
  let msg := Js.toString ex in
  let known :=
    Js.includes "Not a git repository" msg = true \/
    Js.includes "is outside repository" msg = true \/
    Js.includes "no such path" msg = true in
  fst (gitCommand sp cwd args w) = Rejected ex /\
  exists e,
    logged (snd (gitCommand sp cwd args w)) = (logged w ++ [e])%list /\
    (level e = Warn <-> known) /\
    (level e = Error <-> ~ known).
Proof.
  intros H msg known. rewrite (gitCommand_fails _ _ _ _ _ H). simpl.
  split; [reflexivity|]. eexists. split; [reflexivity|]. simpl.
  assert (Hk : benign ex = true <-> known).
  { unfold benign, known, msg. now rewrite !orb_true_iff, or_assoc. }
  destruct (benign ex); split; split; intros K.
  - now apply Hk.
  - reflexivity.
  - discriminate.
  - exfalso. apply K. now apply Hk.
  - discriminate.
  - apply Hk in K. discriminate.
  - intros K'. apply Hk in K'. discriminate.
  - reflexivity.
Qed.

Lemma gitCommand_failure_classification_witness :
  spawn_failing "fatal: /tmp/x.ts is outside repository" (git_path world0) ["status"] "/repo"
    = inr (Js.VError "fatal: /tmp/x.ts is outside repository") /\
  fst (gitCommand (spawn_failing "fatal: /tmp/x.ts is outside repository")
         "/repo" ["status"] world0)
    = Rejected (Js.VError "fatal: /tmp/x.ts is outside repository") /\
  exists e,
    logged (snd (gitCommand (spawn_failing "fatal: /tmp/x.ts is outside repository")
                   "/repo" ["status"] world0)) = [e] /\
    level e = Warn.
Proof.
  split; [reflexivity|].
  destruct (gitCommand_failure_classification
              (spawn_failing "fatal: /tmp/x.ts is outside repository")
              "/repo" ["status"] world0 _ eq_refl) as [Hrej (e & He & Hwarn & _)].
  split; [exact Hrej|].
  exists e. split; [exact He|].
  apply Hwarn. right. left. reflexivity.
Defined.

(** C4 as written fails on a message that has "not a git repository" in
    lower case only: it is logged at error level, not at warning level. *)
Lemma gitCommand_lowercase_counterexample :
  let ex := Js.VError "fatal: not a git repository (or any of the parent directories): .git" in
  Js.includes "not a git repository" (Js.toString ex) = true /\
  map level (logs (gitCommand (fun _ _ _ => inr ex) "/tmp" ["rev-parse"; "--show-toplevel"])
               world0) = [Error].
Proof. split; reflexivity. Qed.

(** C9: every invocation of [gitCommand] adds exactly one entry to the log:
    an informational one when the child process succeeds, a warning or an
    error when it fails. *)
Theorem gitCommand_logs_once (sp : Spawner) (cwd : string) (args : list string) (w : World) :
  exists e,
    logged (snd (gitCommand sp cwd args w)) = (logged w ++ [e])%list /\
    logs (gitCommand sp cwd args) w = [e] /\
    match sp (git_path w) args cwd with
    | inl _ => level e = Info
    | inr _ => level e = Warn \/ level e = Error
    end.
Proof.
  unfold logs.
  destruct (sp (git_path w) args cwd) as [out|ex] eqn:H.
  - rewrite (gitCommand_succeeds _ _ _ _ _ H). simpl.
    eexists. split; [reflexivity|]. split; [apply skipn_past | reflexivity].
  - rewrite (gitCommand_fails _ _ _ _ _ H). simpl.
    eexists. split; [reflexivity|]. split; [apply skipn_past|].
    simpl. destruct (benign ex); auto.
Qed.

(** ** Revision Reader *)

Lemma gitCommand_spawns_once (sp : Spawner) (cwd : string) (args : list string) (w : World) :
  spawns (gitCommand sp cwd args) w = [{| exe := git_path w; argv := args; cwd := cwd |}].
Proof.
  unfold spawns.
  destruct (sp (git_path w) args cwd) as [out|ex] eqn:H.
  - rewrite (gitCommand_succeeds _ _ _ _ _ H). simpl. apply skipn_past.
  - rewrite (gitCommand_fails _ _ _ _ _ H). simpl. apply skipn_past.
Qed.

(** C1, amended: [logRange] runs the tool in the same directory and with
    the flags of [log] ([--name-only], [--no-merges] and the fixed
    [--format] template) except [--follow], which it leaves out, and with
    [-L <start>,<end>:<file>] in place of the plain file argument. *)
Theorem logRange_flags_of_log_without_follow (P : NodePath) (sp : Spawner)
        (fileName : string) (start end_ : N) (repoPath : option string) (w : World) :
  let file := fst (splitPath P (normalizePath fileName None) repoPath) in
  let root := snd (splitPath P (normalizePath fileName None) repoPath) in
  let range := "-L " ++ Js.numberToString start ++ "," ++ Js.numberToString end_
                 ++ ":" ++ file in
  exists full ranged,
    spawns (log P sp fileName repoPath) w = [full] /\
    spawns (logRange P sp fileName start end_ repoPath) w = [ranged] /\
    exe ranged = exe full /\
    cwd ranged = cwd full /\
    cwd full = root /\
    argv full = ["log"; "--follow"; "--name-only"; "--no-merges"; logFormat; file] /\
    argv ranged = ["log"; "--name-only"; "--no-merges"; logFormat; range] /\
    argv ranged
      = (remove string_dec "--follow" (removelast (argv full)) ++ [range])%list.
Proof.
  intros file root range. subst file root range.
  unfold log, logRange.
  destruct (splitPath P (normalizePath fileName None) repoPath) as [file root].
  rewrite !gitCommand_spawns_once. simpl fst. simpl snd.
  do 2 eexists. repeat split.
Qed.

(** C1 as written fails: [log] passes [--follow], [logRange] does not, so
    the two argument lists differ in more than the file argument. *)
Lemma logRange_follow_counterexample :
  let full := map argv (spawns (log Posix.path spawn_ok "a.ts" (Some "/repo")) world0) in
  let ranged :=
    map argv (spawns (logRange Posix.path spawn_ok "a.ts" 10 20 (Some "/repo")) world0) in
  ranged <> map (fun args => removelast args ++ ["-L 10,20:a.ts"])%list full /\
  full = [["log"; "--follow"; "--name-only"; "--no-merges"; logFormat; "a.ts"]] /\
  ranged = [["log"; "--name-only"; "--no-merges"; logFormat; "-L 10,20:a.ts"]].
Proof. split; [discriminate | split; reflexivity]. Qed.

Lemma getVersionedFileText_sentinel (P : NodePath) (sp : Spawner)
      (fileName repoPath sha : string) (w : World) :
  isUncommitted (Js.replace "^" "" sha) = true ->
  getVersionedFileText P sp fileName repoPath sha w =
  (Rejected (Js.VError ("sha=" ++ Js.replace "^" "" sha ++ " is uncommitted")), w).
Proof.
  intros H. unfold getVersionedFileText.
  destruct (splitPath P (normalizePath fileName None) (Some repoPath)) as [file root].
  now rewrite H.
Qed.

Lemma getVersionedFileText_show (P : NodePath) (sp : Spawner)
      (fileName repoPath sha : string) (w : World) :
  isUncommitted (Js.replace "^" "" sha) = false ->
  getVersionedFileText P sp fileName repoPath sha w =
  gitCommand sp (snd (splitPath P (normalizePath fileName None) (Some repoPath)))
    ["show"; Js.replace "^" "" sha ++ ":./"
               ++ fst (splitPath P (normalizePath fileName None) (Some repoPath))] w.
Proof.
  intros H. unfold getVersionedFileText.
  destruct (splitPath P (normalizePath fileName None) (Some repoPath)) as [file root].
  now rewrite H.
Qed.

(** C5: when the revision, once its [^] is stripped, is the all-zero
    sentinel, [getVersionedFileText] rejects with a descriptive error and
    leaves the world as it was: no process is spawned (and nothing logged). *)
Theorem getVersionedFileText_rejects_uncommitted (P : NodePath) (sp : Spawner)
        (fileName repoPath sha : string) (w : World) :
  isUncommitted (Js.replace "^" "" sha) = true ->
  getVersionedFileText P sp fileName repoPath sha w =
    (Rejected (Js.VError ("sha=" ++ Js.replace "^" "" sha ++ " is uncommitted")), w) /\
  spawns (getVersionedFileText P sp fileName repoPath sha) w = [].
Proof.
  intros H. unfold spawns. rewrite getVersionedFileText_sentinel by assumption.
  split; [reflexivity|]. simpl. apply skipn_all.
Qed.

Lemma getVersionedFileText_rejects_uncommitted_witness :
  isUncommitted (Js.replace "^" "" "0000000000000000000000000000000000000000^") = true /\
  getVersionedFileText Posix.path spawn_ok "/repo/src/a.ts" "/repo"
      "0000000000000000000000000000000000000000^" world0 =
    (Rejected (Js.VError "sha=0000000000000000000000000000000000000000 is uncommitted"),
     world0) /\
  spawns (getVersionedFileText Posix.path spawn_ok "/repo/src/a.ts" "/repo"
            "0000000000000000000000000000000000000000^") world0 = [].
Proof.
  split; [reflexivity|].
  exact (getVersionedFileText_rejects_uncommitted Posix.path spawn_ok "/repo/src/a.ts"
           "/repo" "0000000000000000000000000000000000000000^" world0 eq_refl).
Defined.

(** A [^] at the end of a revision that has none elsewhere is the one
    [replace] removes. *)
Lemma replace_trailing_caret (sha : string) :
  Js.includes "^" sha = false -> Js.replace "^" "" (sha ++ "^") = sha.
Proof.
  induction sha as [|c sha IH]; intros H; [reflexivity|].
  simpl in H. apply orb_false_iff in H as [Hc Hrest].
  rewrite JsFacts.replace_unfold. simpl. simpl in Hc. rewrite Hc.
  f_equal. now apply IH.
Qed.

(** In general: a revision without [^] and the same revision with one [^]
    appended are retrieved alike. *)
Lemma getVersionedFileText_trailing_caret (P : NodePath) (sp : Spawner)
      (fileName repoPath sha : string) (w : World) :
  Js.includes "^" sha = false ->
  getVersionedFileText P sp fileName repoPath (sha ++ "^") w
    = getVersionedFileText P sp fileName repoPath sha w.
Proof.
  intros H. unfold getVersionedFileText.
  rewrite replace_trailing_caret by assumption.
  now rewrite (JsFacts.replace_absent "^" "" sha) by assumption.
Qed.

(** C6: the trailing [^] of a revision is stripped before anything else
    is done with it.  For every file name, root and world, and every
    revision [sha] that has no [^] of its own, retrieving [sha^] is
    retrieving [sha]: the same command [show <sha>:./<file>] in the same
    directory with the same result and world, or the same rejection when
    [sha] is the uncommitted sentinel.  In particular "deadbeef^" is
    treated as "deadbeef": both run [show deadbeef:./<file>]. *)
Theorem getVersionedFileText_strips_caret (P : NodePath) (sp : Spawner)
        (fileName repoPath : string) (w : World) :
  let file := fst (splitPath P (normalizePath fileName None) (Some repoPath)) in
  let root := snd (splitPath P (normalizePath fileName None) (Some repoPath)) in
  (forall sha,
      Js.includes "^" sha = false ->
      getVersionedFileText P sp fileName repoPath (sha ++ "^") w
        = getVersionedFileText P sp fileName repoPath sha w /\
      (isUncommitted sha = false ->
       getVersionedFileText P sp fileName repoPath (sha ++ "^") w
         = gitCommand sp root ["show"; sha ++ ":./" ++ file] w) /\
      (isUncommitted sha = true ->
       getVersionedFileText P sp fileName repoPath (sha ++ "^") w
         = (Rejected (Js.VError ("sha=" ++ sha ++ " is uncommitted")), w))) /\
  getVersionedFileText P sp fileName repoPath "deadbeef^" w
    = getVersionedFileText P sp fileName repoPath "deadbeef" w /\
  getVersionedFileText P sp fileName repoPath "deadbeef^" w
    = gitCommand sp root ["show"; "deadbeef:./" ++ file] w /\
  getVersionedFileText P sp fileName repoPath "deadbeef" w
    = gitCommand sp root ["show"; "deadbeef:./" ++ file] w.
Proof.
  intros file root. subst file root.
  split; [|split; [|split]].
  - intros sha Hsha.
    pose proof (replace_trailing_caret sha Hsha) as Hstrip.
    split; [|split].
    + unfold getVersionedFileText.
      now rewrite Hstrip, (JsFacts.replace_absent "^" "" sha Hsha).
    + intros Hcommitted.
      rewrite getVersionedFileText_show; rewrite Hstrip; [reflexivity | exact Hcommitted].
    + intros Hsentinel.
      rewrite getVersionedFileText_sentinel; rewrite Hstrip; [reflexivity | exact Hsentinel].
  - rewrite (getVersionedFileText_show P sp fileName repoPath "deadbeef^") by reflexivity.
    now rewrite (getVersionedFileText_show P sp fileName repoPath "deadbeef") by reflexivity.
  - now rewrite (getVersionedFileText_show P sp fileName repoPath "deadbeef^") by reflexivity.
  - now rewrite (getVersionedFileText_show P sp fileName repoPath "deadbeef") by reflexivity.
Qed.

Lemma getVersionedFileText_strips_caret_witness :
  Js.includes "^" "4f2a91c" = false /\
  isUncommitted "4f2a91c" = false /\
  getVersionedFileText Posix.path spawn_ok "/repo/src/a.ts" "/repo" ("4f2a91c" ++ "^") world0
    = getVersionedFileText Posix.path spawn_ok "/repo/src/a.ts" "/repo" "4f2a91c" world0 /\
  getVersionedFileText Posix.path spawn_ok "/repo/src/a.ts" "/repo" ("4f2a91c" ++ "^") world0
    = gitCommand spawn_ok "/repo" ["show"; "4f2a91c:./src/a.ts"] world0.
Proof.
  split; [reflexivity|]. split; [reflexivity|].
  destruct (proj1 (getVersionedFileText_strips_caret Posix.path spawn_ok
                     "/repo/src/a.ts" "/repo" world0) "4f2a91c" eq_refl)
    as (Hsame & Hshow & _).
  split; [exact Hsame | exact (Hshow eq_refl)].
Defined.

(** ** Materializer *)

Section MaterializerFacts.

Variable P : NodePath.
Variable sp : Spawner.
Variable path_extname : string -> string.
Variable path_basename_ext : string -> string -> string.
Variable tmp_file : string -> string -> Js.Value * string.
Variable fs_appendFile : string -> string -> Js.Value.

(** A rejection of the content fetch reaches neither [resolve] nor
    [reject]: the returned promise stays pending. *)
Lemma getVersionedFile_drops_rejection (fileName repoPath sha : string)
      (w w' : World) (reason : Js.Value) :
  getVersionedFileText P sp fileName repoPath sha w = (Rejected reason, w') ->
  getVersionedFile P sp path_extname path_basename_ext tmp_file fs_appendFile
    fileName repoPath sha w = (Pending, w').
Proof.
  intros H. unfold getVersionedFile, bind. rewrite H. reflexivity.
Qed.

(** C2 fails on the code: for the uncommitted sentinel the content fetch
    rejects, and the promise [getVersionedFile] returned never settles. *)
Theorem getVersionedFile_uncommitted_never_settles (fileName repoPath : string) (w : World) :
  fst (getVersionedFileText P sp fileName repoPath
         "0000000000000000000000000000000000000000" w)
    = Rejected (Js.VError "sha=0000000000000000000000000000000000000000 is uncommitted") /\
  getVersionedFile P sp path_extname path_basename_ext tmp_file fs_appendFile
    fileName repoPath "0000000000000000000000000000000000000000" w
    = (Pending, w).
Proof.
  pose proof (getVersionedFileText_sentinel P sp fileName repoPath
                "0000000000000000000000000000000000000000" w eq_refl) as H.
  split; [now rewrite H|].
  now apply getVersionedFile_drops_rejection with (reason := Js.VError
    "sha=0000000000000000000000000000000000000000 is uncommitted").
Qed.

(** The same happens to an execution error of the tool. *)
Lemma getVersionedFile_execution_error_never_settles (fileName repoPath sha : string)
      (w : World) (ex : Js.Value) :
  isUncommitted (Js.replace "^" "" sha) = false ->
  (forall args cwd, sp (git_path w) args cwd = inr ex) ->
  fst (getVersionedFileText P sp fileName repoPath sha w) = Rejected ex /\
  fst (getVersionedFile P sp path_extname path_basename_ext tmp_file fs_appendFile
         fileName repoPath sha w) = Pending.
Proof.
  intros Hsha Hfail.
  destruct (getVersionedFileText P sp fileName repoPath sha w) as [p w'] eqn:E.
  rewrite getVersionedFileText_show in E by assumption.
  rewrite gitCommand_fails with (ex := ex) in E by apply Hfail.
  injection E as <- <-.
  split; [reflexivity|].
  unfold getVersionedFile, bind.
  rewrite getVersionedFileText_show by assumption.
  rewrite gitCommand_fails with (ex := ex) by apply Hfail. reflexivity.
Qed.

End MaterializerFacts.

(** * Further properties of the module *)

(** ** Characters of the strings the module builds *)

Module CharFacts.
Import Js.

Lemma chars_app (a b : string) : chars (a ++ b) = (chars a ++ chars b)%list.
Proof. induction a as [|c a IH]; simpl; [reflexivity | now rewrite <- IH]. Qed.

Lemma replaceAllChar_lacks (a b : ascii) (s : string) :
  a <> b -> lacks a (replaceAllChar a b s).
Proof.
  intros Hab. unfold lacks, chars.
  induction s as [|c s IH]; simpl; [tauto|].
  intros [H|H]; [|now apply IH].
  destruct (Ascii.eqb c a) eqn:E; [congruence|].
  subst. now rewrite Ascii.eqb_refl in E.
Qed.

Lemma replaceAllChar_id (a b : ascii) (s : string) :
  lacks a s -> replaceAllChar a b s = s.
Proof.
  unfold lacks, chars. induction s as [|c s IH]; simpl; intros H; [reflexivity|].
  destruct (Ascii.eqb c a) eqn:E.
  - apply Ascii.eqb_eq in E. exfalso. apply H. now left.
  - f_equal. apply IH. intros K. apply H. now right.
Qed.

Lemma startsWith_chars (p s : string) (c : ascii) :
  startsWith p s = true -> In c (chars p) -> In c (chars s).
Proof.
  unfold chars. revert s; induction p as [|a p IH]; intros s H Hc; simpl in *; [tauto|].
  destruct s as [|b s]; [discriminate|].
  apply andb_true_iff in H as [Hab Hps]. apply Ascii.eqb_eq in Hab; subst b.
  simpl. destruct Hc as [->|Hc]; [now left | right; now apply IH].
Qed.

Lemma includes_chars (p s : string) (c : ascii) :
  includes p s = true -> In c (chars p) -> In c (chars s).
Proof.
  induction s as [|b s IH]; simpl; intros H Hc.
  - apply orb_true_iff in H as [H|H]; [|discriminate].
    now apply (startsWith_chars p "" c).
  - apply orb_true_iff in H as [H|H].
    + now apply (startsWith_chars p (String b s) c).
    + right. now apply IH.
Qed.

(** Both line-break patterns consume every CR and LF. *)
Lemma removeLineBreaks_chars (s : string) (c : ascii) :
  In c (chars (removeLineBreaks s)) -> In c (chars s) /\ c <> CR /\ c <> LF.
Proof.
  assert (H : forall n s, String.length s <= n ->
              In c (chars (removeLineBreaks s)) -> In c (chars s) /\ c <> CR /\ c <> LF).
  { clear s. induction n as [|n IH]; intros s Hn.
    - destruct s; [simpl; tauto | simpl in Hn; lia].
    - destruct s as [|a s]; [simpl; tauto|]. simpl in Hn.
      unfold chars. simpl. destruct (Ascii.eqb a CR) eqn:Ea.
      + destruct s as [|b s]; [simpl; tauto|]. simpl in Hn.
        destruct (Ascii.eqb b LF) eqn:Eb; intros K.
        * apply IH in K; [|lia]. unfold chars in K. simpl. tauto.
        * apply IH in K; [|simpl; lia]. unfold chars in K. simpl in K. simpl. tauto.
      + destruct (Ascii.eqb a LF) eqn:El; intros K.
        * apply IH in K; [|lia]. unfold chars in K. tauto.
        * simpl in K. destruct K as [<-|K].
          -- apply Ascii.eqb_neq in Ea, El. tauto.
          -- apply IH in K; [|lia]. unfold chars in K. tauto. }
  apply (H (String.length s)). lia.
Qed.

Lemma replaceLineBreaks_chars (s : string) (c : ascii) :
  In c (chars (replaceLineBreaks s)) -> c <> CR /\ c <> LF.
Proof.
  assert (H : forall n s, String.length s <= n ->
              In c (chars (replaceLineBreaks s)) -> c <> CR /\ c <> LF).
  { clear s. induction n as [|n IH]; intros s Hn.
    - destruct s; [simpl; tauto | simpl in Hn; lia].
    - destruct s as [|a s]; [simpl; tauto|]. simpl in Hn.
      unfold chars. simpl. destruct (Ascii.eqb a CR) eqn:Ea.
      + destruct s as [|b s].
        * simpl. intros [<-|[]]. split; discriminate.
        * simpl in Hn. destruct (Ascii.eqb b LF) eqn:Eb; simpl; intros [<-|K];
            try (split; discriminate).
          -- apply (IH s); [lia | exact K].
          -- apply (IH (String b s)); [simpl; lia | exact K].
      + destruct (Ascii.eqb a LF) eqn:El; simpl; intros [<-|K].
        * split; discriminate.
        * apply (IH s); [lia | exact K].
        * apply Ascii.eqb_neq in Ea, El. tauto.
        * apply (IH s); [lia | exact K]. }
  apply (H (String.length s)). lia.
Qed.

(** A line end after a string without line breaks is all that is removed. *)
Lemma removeLineBreaks_line (s eol : string) :
  lacks CR s -> lacks LF s ->
  eol = String LF "" \/ eol = String CR (String LF "") ->
  removeLineBreaks (s ++ eol) = s.
Proof.
  unfold lacks, chars. intros Hcr Hlf Heol.
  induction s as [|a s IH].
  - destruct Heol as [->| ->]; reflexivity.
  - simpl in Hcr, Hlf. simpl.
    destruct (Ascii.eqb a CR) eqn:Ea.
    { apply Ascii.eqb_eq in Ea. exfalso. apply Hcr. now left. }
    destruct (Ascii.eqb a LF) eqn:El.
    { apply Ascii.eqb_eq in El. exfalso. apply Hlf. now left. }
    f_equal. apply IH; tauto.
Qed.

End CharFacts.

Lemma normalizePath_lacks_backslash (fileName : string) (repoPath : option string) :
  lacks Js.backslash (normalizePath fileName repoPath).
Proof. apply CharFacts.replaceAllChar_lacks. discriminate. Qed.

Lemma normalizePath_idem (fileName : string) (r1 r2 : option string) :
  normalizePath (normalizePath fileName r1) r2 = normalizePath fileName r1.
Proof.
  unfold normalizePath at 1. apply CharFacts.replaceAllChar_id.
  apply normalizePath_lacks_backslash.
Qed.

(** ** Path Resolver, continued *)

(** X4: a root that contains a backslash is never stripped from a
    normalized file name: the name comes back whole, with the root echoed.
    (Normalization turned every backslash of the name into a slash, so the
    root cannot occur in it.) *)
Theorem splitPath_backslash_root_never_matches (P : NodePath) (fileName root : string) :
  In Js.backslash (chars root) ->
  splitPath P (normalizePath fileName None) (Some root)
    = (normalizePath fileName None, root).
Proof.
  intros Hroot.
  assert (Hne : root <> "") by (intros ->; exact Hroot).
  rewrite splitPath_given by assumption.
  rewrite JsFacts.replace_absent; [reflexivity|].
  destruct (Js.includes (root ++ "/") (normalizePath fileName None)) eqn:E; [|reflexivity].
  exfalso. apply (normalizePath_lacks_backslash fileName None).
  apply (CharFacts.includes_chars _ _ _ E).
  rewrite CharFacts.chars_app. apply in_or_app. now left.
Qed.

Lemma splitPath_backslash_root_never_matches_witness :
  In Js.backslash (chars (String "C" (String ":" (String Js.backslash "repo")))) /\
  splitPath Posix.path
    (normalizePath (String "C" (String ":" (String Js.backslash
                      ("repo" ++ String Js.backslash "a.ts")))) None)
    (Some (String "C" (String ":" (String Js.backslash "repo"))))
  = ("C:/repo/a.ts", String "C" (String ":" (String Js.backslash "repo"))).
Proof.
  split; [right; right; left; reflexivity|].
  exact (splitPath_backslash_root_never_matches Posix.path
           (String "C" (String ":" (String Js.backslash
              ("repo" ++ String Js.backslash "a.ts"))))
           (String "C" (String ":" (String Js.backslash "repo")))
           (or_intror (or_intror (or_introl eq_refl)))).
Defined.

(** X5: without a root (omitted, or empty) [splitPath] answers with the
    basename and the dirname of the path module, and neither component has
    a backslash left, whatever the path module returned. *)
Theorem splitPath_without_root_normalized (P : NodePath) (fileName : string) :
  splitPath P fileName None
    = (normalizePath (path_basename P fileName) None,
       normalizePath (path_dirname P fileName) None) /\
  splitPath P fileName (Some "") = splitPath P fileName None /\
  lacks Js.backslash (fst (splitPath P fileName None)) /\
  lacks Js.backslash (snd (splitPath P fileName None)).
Proof.
  repeat split; try reflexivity; unfold splitPath; simpl;
    apply (normalizePath_lacks_backslash _ None).
Qed.

(** ** Process Invoker, continued *)

Lemma truthy_toString (ex : Js.Value) :
  Js.truthy ex = true -> Js.and ex (Js.VString (Js.toString ex)) = Js.VString (Js.toString ex)
                         /\ Js.truthy (Js.VString (Js.toString ex)) = true.
Proof.
  intros H. unfold Js.and. rewrite H. split; [reflexivity|].
  destruct ex as [| |s|m]; try discriminate.
  - exact H.
  - simpl. destruct (String.eqb m ""); reflexivity.
Qed.

Lemma last_pair {A} (l : list A) (a b d : A) : last (l ++ [a; b]) d = b.
Proof.
  replace (l ++ [a; b])%list with ((l ++ [a]) ++ [b])%list
    by (rewrite <- app_assoc; reflexivity).
  apply last_last.
Qed.

(** X6: one invocation of [gitCommand] spawns at most one process --
    a failure is not followed by a second attempt -- and a process it
    spawns is the executable of the current handle with the arguments and
    the working directory it was given.  The promise it returns is settled;
    it is fulfilled only with the output of a process that succeeded, as
    captured.  The handle and the files stay as they were. *)
Theorem gitCommand_no_retry (sp : Spawner) (cwd : string)
        (args : list string) (w : World) :
  exists calls,
    spawned (snd (gitCommand sp cwd args w)) = (spawned w ++ calls)%list /\
    length calls <= 1 /\
    (forall c, In c calls -> c = {| exe := git_path w; argv := args; cwd := cwd |}) /\
    fst (gitCommand sp cwd args w) <> Pending /\
    (forall out,
        fst (gitCommand sp cwd args w) = Fulfilled out ->
        sp (git_path w) args cwd = inl out /\
        calls = [{| exe := git_path w; argv := args; cwd := cwd |}]) /\
    git_path (snd (gitCommand sp cwd args w)) = git_path w /\
    files (snd (gitCommand sp cwd args w)) = files w.
Proof.
  exists [{| exe := git_path w; argv := args; cwd := cwd |}].
  assert (Hin : forall c : SpawnCall,
             In c [{| exe := git_path w; argv := args; cwd := cwd |}] ->
             c = {| exe := git_path w; argv := args; cwd := cwd |}).
  { intros c [<-|[]]. reflexivity. }
  destruct (sp (git_path w) args cwd) as [out|ex] eqn:H.
  - rewrite (gitCommand_succeeds _ _ _ _ _ H). simpl.
    split; [reflexivity|]. split; [lia|]. split; [exact Hin|].
    split; [discriminate|]. split; [|split; reflexivity].
    intros out' [= <-]. split; reflexivity.
  - rewrite (gitCommand_fails _ _ _ _ _ H). simpl.
    split; [reflexivity|]. split; [lia|]. split; [exact Hin|].
    split; [discriminate|]. split; [|split; reflexivity].
    intros out' K. discriminate.
Qed.

(** X7: the entry [gitCommand] writes names the command: it starts with
    "git", goes on with the arguments in their order and then the working
    directory; nothing follows on success, one part (the failure text)
    follows on failure. *)
Theorem gitCommand_entry_names_command (sp : Spawner) (cwd : string)
        (args : list string) (w : World) :
  exists e rest,
    logged (snd (gitCommand sp cwd args w)) = (logged w ++ [e])%list /\
    parts e = (Js.VString "git" :: map Js.VString args
                 ++ Js.VString ("  cwd='" ++ cwd ++ "'") :: rest)%list /\
    length rest = match sp (git_path w) args cwd with inl _ => 0 | inr _ => 1 end.
Proof.
  destruct (sp (git_path w) args cwd) as [out|ex] eqn:H.
  - rewrite (gitCommand_succeeds _ _ _ _ _ H). simpl.
    do 2 eexists. repeat split.
  - rewrite (gitCommand_fails _ _ _ _ _ H). simpl.
    do 2 eexists. split; [reflexivity|]. split; [reflexivity|]. reflexivity.
Qed.

(** X8: when the tool fails with a truthy value, the last part of the entry
    is a line break, two spaces and the failure text with each of its own
    line breaks turned into a space: the text itself has no CR and no LF. *)
Theorem gitCommand_failure_text_one_line (sp : Spawner) (cwd : string)
        (args : list string) (w : World) (ex : Js.Value) :
  sp (git_path w) args cwd = inr ex ->
  Js.truthy ex = true ->
  exists e text,
    logged (snd (gitCommand sp cwd args w)) = (logged w ++ [e])%list /\
    last (parts e) Js.VUndefined = Js.VString (String Js.LF "  " ++ text) /\
    text = Js.replaceLineBreaks (Js.toString ex) /\
    lacks Js.CR text /\ lacks Js.LF text.
Proof.
  intros H Ht. rewrite (gitCommand_fails _ _ _ _ _ H). simpl.
  do 2 eexists. split; [reflexivity|]. simpl parts.
  split; [|split; [reflexivity|]].
  - rewrite app_comm_cons, last_pair.
    unfold failureDetail.
    destruct (truthy_toString ex Ht) as [-> Hmsg].
    unfold Js.and at 1. rewrite Hmsg. reflexivity.
  - split; intros K; apply CharFacts.replaceLineBreaks_chars in K; tauto.
Qed.

Lemma gitCommand_failure_text_one_line_witness :
  let ex := Js.VError ("fatal: bad revision" ++ String Js.CR (String Js.LF "hint: x")) in
  (fun _ _ _ => inr ex : string + Js.Value) (git_path world0) ["show"; "x:./a.ts"] "/repo"
    = inr ex /\
  Js.truthy ex = true /\
  exists e,
    logged (snd (gitCommand (fun _ _ _ => inr ex) "/repo" ["show"; "x:./a.ts"] world0))
      = [e] /\
    last (parts e) Js.VUndefined
      = Js.VString (String Js.LF "  Error: fatal: bad revision hint: x").
Proof.
  intros ex. split; [reflexivity|]. split; [reflexivity|].
  destruct (gitCommand_failure_text_one_line (fun _ _ _ => inr ex) "/repo"
              ["show"; "x:./a.ts"] world0 ex eq_refl eq_refl)
    as (e & text & He & Hlast & Htext & _).
  exists e. split; [exact He|]. rewrite Hlast, Htext. reflexivity.
Defined.

(** ** Revision Reader, continued *)

Lemma single_shot_gitCommand (sp : Spawner) (cwd : string) (args : list string) :
  single_shot (gitCommand sp cwd args).
Proof.
  intros w.
  exists [{| exe := git_path w; argv := args; cwd := cwd |}].
  destruct (sp (git_path w) args cwd) as [out|ex] eqn:H.
  - rewrite (gitCommand_succeeds _ _ _ _ _ H). simpl.
    eexists [_]. repeat split; auto. intros c [<-|[]]. reflexivity.
  - rewrite (gitCommand_fails _ _ _ _ _ H). simpl.
    eexists [_]. repeat split; auto. intros c [<-|[]]. reflexivity.
Qed.

Lemma single_shot_ret {A} (a : A) : single_shot (ret a).
Proof.
  intros w. exists [], []. simpl. rewrite !app_nil_r.
  repeat split; auto. intros c [].
Qed.

(** X9: each query of the Revision Reader -- [log], [logRange], [blame],
    [blameLines], [getVersionedFileText] -- spawns at most one process,
    through the current handle, and none without a log entry; writes at
    most one log entry; keeps the processes and entries recorded before;
    and changes neither the handle nor the files. *)
Theorem queries_single_shot (P : NodePath) (sp : Spawner) (format : GitBlameFormat)
        (fileName : string) (startLine endLine : N) (sha repoPath : option string)
        (root rev : string) :
  single_shot (log P sp fileName repoPath) /\
  single_shot (logRange P sp fileName startLine endLine repoPath) /\
  single_shot (blame P sp format fileName sha repoPath) /\
  single_shot (blameLines P sp format fileName startLine endLine sha repoPath) /\
  single_shot (getVersionedFileText P sp fileName root rev).
Proof.
  unfold log, logRange, blame, blameLines, getVersionedFileText.
  destruct (splitPath P (normalizePath fileName None) repoPath) as [file dir].
  destruct (splitPath P (normalizePath fileName None) (Some root)) as [file' dir'].
  repeat split; try apply single_shot_gitCommand.
  - destruct (given sha); apply single_shot_gitCommand.
  - destruct (given sha); apply single_shot_gitCommand.
  - destruct (isUncommitted (Js.replace "^" "" rev));
      [apply single_shot_ret | apply single_shot_gitCommand].
Qed.

(** X1: [blameLines] runs what [blame] runs for the same file, revision
    and root -- same executable, same directory -- with the one argument
    [-L <start>,<end>] put in right after "blame"; all other arguments keep
    their order. *)
Theorem blameLines_inserts_range (P : NodePath) (sp : Spawner) (format : GitBlameFormat)
        (fileName : string) (startLine endLine : N) (sha repoPath : option string)
        (w : World) :
  exists whole ranged,
    spawns (blame P sp format fileName sha repoPath) w = [whole] /\
    spawns (blameLines P sp format fileName startLine endLine sha repoPath) w = [ranged] /\
    exe ranged = exe whole /\
    cwd ranged = cwd whole /\
    hd "" (argv whole) = "blame" /\
    argv ranged
      = hd "" (argv whole)
        :: ("-L " ++ Js.numberToString startLine ++ "," ++ Js.numberToString endLine)
        :: tl (argv whole).
Proof.
  unfold blame, blameLines.
  destruct (splitPath P (normalizePath fileName None) repoPath) as [file dir].
  destruct (given sha); rewrite !gitCommand_spawns_once;
    do 2 eexists; repeat split.
Qed.

Lemma runs_only_gitCommand (sp : Spawner) (dir : string) (args : list string) (w : World) :
  runs_only (gitCommand sp dir args) w dir args.
Proof.
  unfold runs_only. rewrite gitCommand_spawns_once. split; [|split].
  - unfold logs.
    destruct (sp (git_path w) args dir) as [out|ex] eqn:H.
    + rewrite (gitCommand_succeeds _ _ _ _ _ H). simpl.
      do 2 eexists. split; [apply skipn_past | reflexivity].
    + rewrite (gitCommand_fails _ _ _ _ _ H). simpl.
      do 2 eexists. split; [apply skipn_past | reflexivity].
  - simpl. lia.
  - intros c [<-|[]]. reflexivity.
Qed.

(** X2: with a non-empty revision the command of [blame] is
    [blame <format> --root <sha>^ -- <file>] -- the revision with [^]
    appended, the state just before it, between [--root] and [--] -- and
    without a revision (omitted, or empty) it is
    [blame <format> --root -- <file>].  That command, in the resolved root,
    is what the log entry of [blame] names and the only thing [blame]
    spawns; the file is its last argument, right after [--]. *)
Theorem blame_revision_offset (P : NodePath) (sp : Spawner) (format : GitBlameFormat)
        (fileName sha : string) (repoPath : option string) (w : World) :
  sha <> "" ->
  let file := fst (splitPath P (normalizePath fileName None) repoPath) in
  let root := snd (splitPath P (normalizePath fileName None) repoPath) in
  runs_only (blame P sp format fileName (Some sha) repoPath) w root
    ["blame"; blameFlag format; "--root"; sha ++ "^"; "--"; file] /\
  runs_only (blame P sp format fileName None repoPath) w root
    ["blame"; blameFlag format; "--root"; "--"; file] /\
  blame P sp format fileName (Some "") repoPath = blame P sp format fileName None repoPath.
Proof.
  intros Hsha file root. subst file root. unfold blame.
  rewrite (given_nonempty sha Hsha).
  destruct (splitPath P (normalizePath fileName None) repoPath) as [file dir].
  simpl. repeat split; try apply runs_only_gitCommand.
Qed.

Lemma blame_revision_offset_witness :
  "4f2a91c" <> "" /\
  runs_only (blame Posix.path spawn_ok porcelain "/repo/src/a.ts" (Some "4f2a91c")
               (Some "/repo")) world0 "/repo"
    ["blame"; "--porcelain"; "--root"; "4f2a91c^"; "--"; "src/a.ts"].
Proof.
  split; [discriminate|].
  exact (proj1 (blame_revision_offset Posix.path spawn_ok porcelain "/repo/src/a.ts"
                  "4f2a91c" (Some "/repo") world0 ltac:(discriminate))).
Defined.

(** X3: every query normalizes the file name before anything else, so a
    name written with backslashes and the same name written with forward
    slashes are the same query: same command, same result, same world. *)
Theorem queries_normalize_file_name (P : NodePath) (sp : Spawner) (format : GitBlameFormat)
        (fileName : string) (startLine endLine : N) (sha repoPath : option string)
        (root rev : string) :
  log P sp (normalizePath fileName None) repoPath = log P sp fileName repoPath /\
  logRange P sp (normalizePath fileName None) startLine endLine repoPath
    = logRange P sp fileName startLine endLine repoPath /\
  blame P sp format (normalizePath fileName None) sha repoPath
    = blame P sp format fileName sha repoPath /\
  blameLines P sp format (normalizePath fileName None) startLine endLine sha repoPath
    = blameLines P sp format fileName startLine endLine sha repoPath /\
  getVersionedFileText P sp (normalizePath fileName None) root rev
    = getVersionedFileText P sp fileName root rev.
Proof.
  unfold log, logRange, blame, blameLines, getVersionedFileText.
  rewrite !normalizePath_idem. repeat split.
Qed.

Lemma isUncommitted_zeros (sha : string) :
  isUncommitted sha = true <-> sha <> "" /\ zeros sha.
Proof.
  unfold isUncommitted, RegExp.test, RegExp.match_here; simpl.
  rewrite RegExpFacts.accepts_lang. apply RegExpFacts.plus_zero_lang.
Qed.

Lemma replace_first_caret (a b : string) :
  Js.includes "^" a = false -> Js.replace "^" "" (a ++ "^" ++ b) = a ++ b.
Proof.
  induction a as [|c a IH]; intros H; [reflexivity|].
  simpl in H. apply orb_false_iff in H as [Hc Hrest].
  rewrite JsFacts.replace_unfold. simpl. simpl in Hc. rewrite Hc.
  f_equal. now apply IH.
Qed.

(** X14: retrieving a revision with one [^] appended is retrieving the
    revision itself, for every revision that has no [^] of its own: the
    parent reference that [blame] builds for a revision ([<sha>^]) reads,
    as content, the revision and not its parent. *)
Theorem getVersionedFileText_ignores_parent_suffix (P : NodePath) (sp : Spawner)
        (fileName repoPath sha : string) :
  Js.includes "^" sha = false ->
  getVersionedFileText P sp fileName repoPath (sha ++ "^")
    = getVersionedFileText P sp fileName repoPath sha.
Proof.
  intros H. unfold getVersionedFileText.
  rewrite (replace_trailing_caret sha H), (JsFacts.replace_absent "^" "" sha H).
  reflexivity.
Qed.

Lemma getVersionedFileText_ignores_parent_suffix_witness :
  Js.includes "^" "4f2a91c" = false /\
  getVersionedFileText Posix.path spawn_ok "/repo/src/a.ts" "/repo" ("4f2a91c" ++ "^")
    = getVersionedFileText Posix.path spawn_ok "/repo/src/a.ts" "/repo" "4f2a91c".
Proof.
  split; [reflexivity|].
  exact (getVersionedFileText_ignores_parent_suffix Posix.path spawn_ok
           "/repo/src/a.ts" "/repo" "4f2a91c" eq_refl).
Defined.

(** X15: only the first [^] of a revision is removed, wherever it stands:
    for a revision [a^b] whose part [a] has no [^], the command is
    [show <ab>:./<file>] (unless [ab] is the uncommitted sentinel): that is
    what the log entry names and the only thing spawned.  So a grandparent
    reference [<sha>^^] shows [<sha>^]. *)
Theorem getVersionedFileText_strips_first_caret_only (P : NodePath) (sp : Spawner)
        (fileName repoPath a b : string) (w : World) :
  Js.includes "^" a = false ->
  isUncommitted (a ++ b) = false ->
  let file := fst (splitPath P (normalizePath fileName None) (Some repoPath)) in
  let root := snd (splitPath P (normalizePath fileName None) (Some repoPath)) in
  getVersionedFileText P sp fileName repoPath (a ++ "^" ++ b) w
    = gitCommand sp root ["show"; (a ++ b) ++ ":./" ++ file] w /\
  runs_only (getVersionedFileText P sp fileName repoPath (a ++ "^" ++ b)) w root
    ["show"; (a ++ b) ++ ":./" ++ file].
Proof.
  intros Ha Hab file root. subst file root.
  assert (E : getVersionedFileText P sp fileName repoPath (a ++ "^" ++ b) w
              = gitCommand sp (snd (splitPath P (normalizePath fileName None) (Some repoPath)))
                  ["show"; (a ++ b) ++ ":./"
                     ++ fst (splitPath P (normalizePath fileName None) (Some repoPath))] w).
  { rewrite getVersionedFileText_show; rewrite (replace_first_caret a b Ha);
      [reflexivity | exact Hab]. }
  split; [exact E|].
  pose proof (runs_only_gitCommand sp
                (snd (splitPath P (normalizePath fileName None) (Some repoPath)))
                ["show"; (a ++ b) ++ ":./"
                   ++ fst (splitPath P (normalizePath fileName None) (Some repoPath))] w)
    as R.
  unfold runs_only, logs, spawns in *. rewrite E. exact R.
Qed.

Lemma getVersionedFileText_strips_first_caret_only_witness :
  Js.includes "^" "HEAD" = false /\
  isUncommitted ("HEAD" ++ "^") = false /\
  getVersionedFileText Posix.path spawn_ok "/repo/src/a.ts" "/repo" "HEAD^^" world0
    = gitCommand spawn_ok "/repo" ["show"; "HEAD^:./src/a.ts"] world0.
Proof.
  split; [reflexivity|]. split; [reflexivity|].
  exact (proj1 (getVersionedFileText_strips_first_caret_only Posix.path spawn_ok
                  "/repo/src/a.ts" "/repo" "HEAD" "^" world0 eq_refl eq_refl)).
Defined.

(** ** Repository root lookup *)

Lemma gitCommand_keeps_handle (sp : Spawner) (cwd : string) (args : list string) (w : World) :
  git_path (snd (gitCommand sp cwd args w)) = git_path w.
Proof.
  destruct (sp (git_path w) args cwd) as [out|ex] eqn:H.
  - now rewrite (gitCommand_succeeds _ _ _ _ _ H).
  - now rewrite (gitCommand_fails _ _ _ _ _ H).
Qed.

Section RepoPathFacts.

Variable sp : Spawner.
Variable findGitPath : option string -> string + Js.Value.

Lemma replaceAllChar_chars (a b c : ascii) (s : string) :
  In c (chars (Js.replaceAllChar a b s)) -> c = b \/ In c (chars s).
Proof.
  unfold chars. induction s as [|d s IH]; simpl; [tauto|].
  intros [H|H].
  - destruct (Ascii.eqb d a); [left; now symmetry | right; now left].
  - destruct (IH H); [now left | right; now right].
Qed.

Lemma repoPath_found (cwd : string) (gitPath : option string) (w : World) (found : string) :
  findGitPath gitPath = inl found ->
  repoPath sp findGitPath cwd gitPath w =
  let w1 := snd (set_git found w) in
  match sp found ["rev-parse"; "--show-toplevel"] cwd with
  | inl data =>
      (Fulfilled (normalizePath (Js.removeLineBreaks data) None),
       snd (gitCommand sp cwd ["rev-parse"; "--show-toplevel"] w1))
  | inr ex =>
      (Rejected ex, snd (gitCommand sp cwd ["rev-parse"; "--show-toplevel"] w1))
  end.
Proof.
  intros H. unfold repoPath. rewrite H. unfold bind. simpl.
  destruct (sp found ["rev-parse"; "--show-toplevel"] cwd) as [data|ex] eqn:E.
  - rewrite gitCommand_succeeds with (out := data) by exact E. reflexivity.
  - rewrite gitCommand_fails with (ex := ex) by exact E. reflexivity.
Qed.

(** X10: whatever the tool printed, a root that [repoPath] resolves with
    has no line break and no backslash in it; normalizing it again changes
    nothing. *)
Theorem repoPath_result_normalized (cwd : string) (gitPath : option string)
        (w : World) (root : string) :
  fst (repoPath sp findGitPath cwd gitPath w) = Fulfilled root ->
  lacks Js.CR root /\ lacks Js.LF root /\ lacks Js.backslash root /\
  normalizePath root None = root.
Proof.
  destruct (findGitPath gitPath) as [found|reason] eqn:F.
  - rewrite (repoPath_found _ _ _ _ F). simpl.
    destruct (sp found ["rev-parse"; "--show-toplevel"] cwd) as [data|ex];
      simpl; [|discriminate].
    intros [= <-].
    assert (Hb : lacks Js.backslash (normalizePath (Js.removeLineBreaks data) None))
      by apply normalizePath_lacks_backslash.
    repeat split.
    + intros K. apply replaceAllChar_chars in K as [K|K]; [discriminate|].
      apply CharFacts.removeLineBreaks_chars in K. tauto.
    + intros K. apply replaceAllChar_chars in K as [K|K]; [discriminate|].
      apply CharFacts.removeLineBreaks_chars in K. tauto.
    + exact Hb.
    + apply normalizePath_idem.
  - unfold repoPath. rewrite F. simpl. discriminate.
Qed.

(** X11: when the tool prints the root followed by one line end (LF or
    CR LF), and the root itself has no line break, [repoPath] resolves with
    that root, normalized; the handle is then the one the locator found. *)
Theorem repoPath_strips_line_end (cwd : string) (gitPath : option string)
        (w : World) (found root eol : string) :
  findGitPath gitPath = inl found ->
  sp found ["rev-parse"; "--show-toplevel"] cwd = inl (root ++ eol) ->
  eol = String Js.LF "" \/ eol = String Js.CR (String Js.LF "") ->
  lacks Js.CR root -> lacks Js.LF root ->
  fst (repoPath sp findGitPath cwd gitPath w) = Fulfilled (normalizePath root None) /\
  git_path (snd (repoPath sp findGitPath cwd gitPath w)) = found.
Proof.
  intros F E Heol Hcr Hlf.
  rewrite (repoPath_found _ _ _ _ F). simpl. rewrite E. simpl.
  rewrite (CharFacts.removeLineBreaks_line root eol Hcr Hlf Heol).
  split; [reflexivity|].
  apply gitCommand_keeps_handle.
Qed.

(** X12: [repoPath] hands both kinds of failure to its caller as they
    are.  When the locator fails, nothing is spawned or logged and the
    handle stays as it was; when the tool fails, the handle has already
    been replaced by the one the locator found, one process was spawned
    through it and one entry logged. *)
Theorem repoPath_failure_propagation (cwd : string) (gitPath : option string) (w : World) :
  (forall reason,
      findGitPath gitPath = inr reason ->
      repoPath sp findGitPath cwd gitPath w = (Rejected reason, w)) /\
  (forall found ex,
      findGitPath gitPath = inl found ->
      sp found ["rev-parse"; "--show-toplevel"] cwd = inr ex ->
      fst (repoPath sp findGitPath cwd gitPath w) = Rejected ex /\
      git_path (snd (repoPath sp findGitPath cwd gitPath w)) = found /\
      spawned (snd (repoPath sp findGitPath cwd gitPath w))
        = (spawned w ++ [{| exe := found; argv := ["rev-parse"; "--show-toplevel"];
                            cwd := cwd |}])%list /\
      length (logged (snd (repoPath sp findGitPath cwd gitPath w)))
        = S (length (logged w))).
Proof.
  split.
  - intros reason F. unfold repoPath. now rewrite F.
  - intros found ex F E. rewrite (repoPath_found _ _ _ _ F). simpl. rewrite E. simpl.
    rewrite gitCommand_fails with (ex := ex) by exact E. simpl.
    repeat split. rewrite length_app. simpl. lia.
Qed.

(** X13: after [repoPath] found a handle, that handle runs everything: the
    root lookup itself and whatever command comes next, whichever handle
    was current before. *)
Theorem repoPath_handle_runs_later_commands (cwd : string) (gitPath : option string)
        (w : World) (found : string) (cwd' : string) (args : list string) :
  findGitPath gitPath = inl found ->
  spawns (repoPath sp findGitPath cwd gitPath) w
    = [{| exe := found; argv := ["rev-parse"; "--show-toplevel"]; cwd := cwd |}] /\
  spawns (gitCommand sp cwd' args) (snd (repoPath sp findGitPath cwd gitPath w))
    = [{| exe := found; argv := args; cwd := cwd' |}].
Proof.
  intros F.
  assert (Hg : git_path (snd (repoPath sp findGitPath cwd gitPath w)) = found).
  { rewrite (repoPath_found _ _ _ _ F). simpl.
    destruct (sp found ["rev-parse"; "--show-toplevel"] cwd); simpl;
      apply gitCommand_keeps_handle. }
  split.
  - unfold spawns. rewrite (repoPath_found _ _ _ _ F). cbv zeta.
    assert (Hs : spawned (snd (gitCommand sp cwd ["rev-parse"; "--show-toplevel"]
                                 (snd (set_git found w))))
                 = (spawned w ++ [{| exe := found; argv := ["rev-parse"; "--show-toplevel"];
                                     cwd := cwd |}])%list).
    { destruct (sp found ["rev-parse"; "--show-toplevel"] cwd) as [data|ex] eqn:E.
      - rewrite gitCommand_succeeds with (out := data) by exact E. reflexivity.
      - rewrite gitCommand_fails with (ex := ex) by exact E. reflexivity. }
    destruct (sp found ["rev-parse"; "--show-toplevel"] cwd); cbn [snd];
      rewrite Hs; apply skipn_past.
  - rewrite gitCommand_spawns_once. now rewrite Hg.
Qed.

End RepoPathFacts.

Lemma repoPath_result_normalized_witness :
  let out := String "C" (String ":" (String Js.backslash
               ("repo" ++ String Js.CR (String Js.LF "")))) in
  fst (repoPath (spawn_printing out) (locate_at "/usr/bin/git") "/x" None world0)
    = Fulfilled "C:/repo" /\
  lacks Js.CR "C:/repo" /\ lacks Js.LF "C:/repo" /\ lacks Js.backslash "C:/repo" /\
  normalizePath "C:/repo" None = "C:/repo".
Proof.
  intros out. split; [reflexivity|].
  exact (repoPath_result_normalized (spawn_printing out) (locate_at "/usr/bin/git")
           "/x" None world0 "C:/repo" eq_refl).
Defined.

Lemma repoPath_strips_line_end_witness :
  locate_at "/usr/bin/git" None = inl "/usr/bin/git" /\
  spawn_printing ("/home/me/repo" ++ String Js.LF "") "/usr/bin/git"
      ["rev-parse"; "--show-toplevel"] "/home/me/repo/src"
    = inl ("/home/me/repo" ++ String Js.LF "") /\
  lacks Js.CR "/home/me/repo" /\ lacks Js.LF "/home/me/repo" /\
  fst (repoPath (spawn_printing ("/home/me/repo" ++ String Js.LF ""))
         (locate_at "/usr/bin/git") "/home/me/repo/src" None world0)
    = Fulfilled "/home/me/repo" /\
  git_path (snd (repoPath (spawn_printing ("/home/me/repo" ++ String Js.LF ""))
                   (locate_at "/usr/bin/git") "/home/me/repo/src" None world0))
    = "/usr/bin/git".
Proof.
  assert (Hcr : lacks Js.CR "/home/me/repo").
  { unfold lacks, chars. simpl. intros K.
    repeat (destruct K as [K|K]; [discriminate|]). exact K. }
  assert (Hlf : lacks Js.LF "/home/me/repo").
  { unfold lacks, chars. simpl. intros K.
    repeat (destruct K as [K|K]; [discriminate|]). exact K. }
  split; [reflexivity|]. split; [reflexivity|].
  split; [exact Hcr|]. split; [exact Hlf|].
  exact (repoPath_strips_line_end (spawn_printing ("/home/me/repo" ++ String Js.LF ""))
           (locate_at "/usr/bin/git") "/home/me/repo/src" None world0
           "/usr/bin/git" "/home/me/repo" (String Js.LF "")
           eq_refl eq_refl (or_introl eq_refl) Hcr Hlf).
Defined.

Lemma repoPath_failure_propagation_witness :
  repoPath spawn_ok (locate_failing "git not found") "/x" None world0
    = (Rejected (Js.VError "git not found"), world0) /\
  fst (repoPath (spawn_failing "fatal: Not a git repository") (locate_at "/usr/bin/git")
         "/x" None world0)
    = Rejected (Js.VError "fatal: Not a git repository") /\
  git_path (snd (repoPath (spawn_failing "fatal: Not a git repository")
                   (locate_at "/usr/bin/git") "/x" None world0))
    = "/usr/bin/git".
Proof.
  split.
  - exact (proj1 (repoPath_failure_propagation spawn_ok (locate_failing "git not found")
                    "/x" None world0) _ eq_refl).
  - destruct (proj2 (repoPath_failure_propagation
                       (spawn_failing "fatal: Not a git repository")
                       (locate_at "/usr/bin/git") "/x" None world0)
                _ _ eq_refl eq_refl) as (H1 & H2 & _).
    split; [exact H1 | exact H2].
Defined.

Lemma repoPath_handle_runs_later_commands_witness :
  locate_at "/opt/git/bin/git" (Some "/opt/git/bin/git") = inl "/opt/git/bin/git" /\
  spawns (gitCommand spawn_ok "/repo" ["status"])
         (snd (repoPath spawn_ok (locate_at "/opt/git/bin/git") "/repo"
                 (Some "/opt/git/bin/git") world0))
    = [{| exe := "/opt/git/bin/git"; argv := ["status"]; cwd := "/repo" |}].
Proof.
  split; [reflexivity|].
  exact (proj2 (repoPath_handle_runs_later_commands spawn_ok (locate_at "/opt/git/bin/git")
                  "/repo" (Some "/opt/git/bin/git") world0 "/opt/git/bin/git"
                  "/repo" ["status"] eq_refl)).
Defined.

(** ** Materializer, continued *)

Section MaterializerOutcomes.

Variable P : NodePath.
Variable sp : Spawner.
Variable path_extname : string -> string.
Variable path_basename_ext : string -> string -> string.
Variable tmp_file : string -> string -> Js.Value * string.
Variable fs_appendFile : string -> string -> Js.Value.

(** X16: once the content is fetched, [getVersionedFile] asks for a temp
    file whose prefix is the basename without extension, "-", the revision
    as it was passed (a [^] included) and "__", and whose postfix is the
    extension.  It rejects with the error of the temp-file facility, or
    else with the error of the write, and otherwise resolves with the path
    of the file, which then holds exactly the fetched content.  When no
    temp file could be made the world is as the fetch left it. *)
Theorem getVersionedFile_outcome (fileName repoPath sha data : string) (w w1 : World) :
  getVersionedFileText P sp fileName repoPath sha w = (Fulfilled data, w1) ->
  let ext := path_extname fileName in
  let made := tmp_file (path_basename_ext fileName ext ++ "-" ++ sha ++ "__") ext in
  let written := fs_appendFile (snd made) data in
  let result :=
    getVersionedFile P sp path_extname path_basename_ext tmp_file fs_appendFile
      fileName repoPath sha w in
  fst result
    = (if Js.truthy (fst made) then Rejected (fst made)
       else if Js.truthy written then Rejected written
       else Fulfilled (snd made)) /\
  (Js.truthy (fst made) = true -> snd result = w1) /\
  (Js.truthy (fst made) = false -> Js.truthy written = false ->
   files (snd result) = (snd made, data) :: files w1).
Proof.
  intros H ext made written result. subst result written made ext.
  unfold getVersionedFile, bind, then_. rewrite H.
  unfold tmpFile, appendFile, with_files, bind, ret.
  destruct (tmp_file (path_basename_ext fileName (path_extname fileName) ++ "-" ++ sha ++ "__")
              (path_extname fileName)) as [err destination].
  simpl.
  destruct (Js.truthy err) eqn:Eerr; simpl; rewrite ?Eerr; simpl.
  - split; [reflexivity|]. split; [intros _; destruct w1; reflexivity | discriminate].
  - destruct (Js.truthy (fs_appendFile destination data)) eqn:Ew; simpl;
      rewrite ?Ew; simpl.
    + split; [reflexivity|]. split; discriminate.
    + split; [reflexivity|]. split; [discriminate|].
      intros _ _. now rewrite String.eqb_refl.
Qed.

(** X17: the Materializer spawns no process and writes no log entry of its
    own, and does not touch the handle: the processes and the entries are
    those of the content fetch, also when the temp file or the write
    fails (such a failure is rejected, not logged). *)
Theorem getVersionedFile_adds_no_process_no_entry (fileName repoPath sha : string)
        (w : World) :
  let fetched := snd (getVersionedFileText P sp fileName repoPath sha w) in
  let result :=
    snd (getVersionedFile P sp path_extname path_basename_ext tmp_file fs_appendFile
           fileName repoPath sha w) in
  spawned result = spawned fetched /\
  logged result = logged fetched /\
  git_path result = git_path fetched.
Proof.
  intros fetched result. subst fetched result.
  unfold getVersionedFile, bind, then_.
  destruct (getVersionedFileText P sp fileName repoPath sha w) as [p w1].
  destruct p as [|data|reason]; simpl; try (repeat split; reflexivity).
  unfold tmpFile, appendFile, with_files, bind, ret.
  destruct (tmp_file _ _) as [err destination].
  simpl.
  destruct (Js.truthy err) eqn:Eerr; simpl; rewrite ?Eerr; simpl;
    [repeat split; reflexivity|].
  destruct (Js.truthy (fs_appendFile destination data)) eqn:Ew; simpl;
    rewrite ?Ew; simpl; repeat split; reflexivity.
Qed.

End MaterializerOutcomes.

Lemma getVersionedFile_outcome_witness :
  getVersionedFileText Posix.path (spawn_printing "let x = 1;") "/repo/src/a.ts" "/repo"
      "4f2a91c^" world0
    = (Fulfilled "let x = 1;",
       snd (getVersionedFileText Posix.path (spawn_printing "let x = 1;")
              "/repo/src/a.ts" "/repo" "4f2a91c^" world0)) /\
  fst (getVersionedFile Posix.path (spawn_printing "let x = 1;") sample_extname
         sample_basename_ext sample_tmp_file sample_appendFile
         "/repo/src/a.ts" "/repo" "4f2a91c^" world0)
    = Fulfilled "/tmp/a-4f2a91c^__k3x.ts" /\
  files (snd (getVersionedFile Posix.path (spawn_printing "let x = 1;") sample_extname
                sample_basename_ext sample_tmp_file sample_appendFile
                "/repo/src/a.ts" "/repo" "4f2a91c^" world0))
    = [("/tmp/a-4f2a91c^__k3x.ts", "let x = 1;")].
Proof.
  split; [reflexivity|].
  destruct (getVersionedFile_outcome Posix.path (spawn_printing "let x = 1;")
              sample_extname sample_basename_ext sample_tmp_file sample_appendFile
              "/repo/src/a.ts" "/repo" "4f2a91c^" "let x = 1;" world0 _ eq_refl)
    as (Hres & _ & Hfiles).
  split; [exact Hres | exact (Hfiles eq_refl eq_refl)].
Defined.

(** ** Path Resolver: which occurrence of the root is removed *)

Lemma replace_leftmost (p s : string) :
  Js.includes p s = true ->
  exists pre post,
    s = pre ++ p ++ post /\
    Js.replace p "" s = pre ++ post /\
    forall pre' post', s = pre' ++ p ++ post' -> String.length pre <= String.length pre'.
Proof.
  induction s as [|c s IH]; intros H.
  - simpl in H. apply orb_true_iff in H as [H|H]; [|discriminate].
    exists "", (Js.drop (String.length p) ""). split; [|split].
    + now apply JsFacts.startsWith_split.
    + now rewrite JsFacts.replace_at_start.
    + intros; simpl; lia.
  - destruct (Js.startsWith p (String c s)) eqn:E.
    + exists "", (Js.drop (String.length p) (String c s)). split; [|split].
      * now apply JsFacts.startsWith_split.
      * now rewrite JsFacts.replace_at_start.
      * intros; simpl; lia.
    + simpl in H. simpl in E. rewrite E in H. simpl in H.
      destruct (IH H) as (pre & post & Hs & Hr & Hmin).
      exists (String c pre), post. split; [|split].
      * simpl. now rewrite <- Hs.
      * rewrite JsFacts.replace_unfold. simpl. rewrite E. simpl. now rewrite Hr.
      * intros pre' post' Hs'. destruct pre' as [|d pre'].
        -- exfalso. simpl in Hs'.
           pose proof (JsFacts.startsWith_app p post') as K.
           rewrite <- Hs' in K. simpl in K. congruence.
        -- simpl in Hs'. injection Hs' as _ Hs'. simpl.
           apply le_n_S. now apply (Hmin pre' post').
Qed.

(** X18: with a non-empty root that occurs (as [root + "/"]) in the path,
    [splitPath] removes exactly one occurrence, the leftmost one, and keeps
    what stands before and after it; the root is echoed.  At the start of
    the path this strips the prefix; further in, it cuts the middle out. *)
Theorem splitPath_removes_leftmost_occurrence (P : NodePath) (path root : string) :
  root <> "" ->
  Js.includes (root ++ "/") path = true ->
  exists before after,
    path = before ++ (root ++ "/") ++ after /\
    splitPath P path (Some root) = (before ++ after, root) /\
    forall before' after',
      path = before' ++ (root ++ "/") ++ after' ->
      String.length before <= String.length before'.
Proof.
  intros Hroot Hinc.
  destruct (replace_leftmost (root ++ "/") path Hinc) as (pre & post & Hs & Hr & Hmin).
  exists pre, post. split; [exact Hs|]. split; [|exact Hmin].
  rewrite splitPath_given by assumption. now rewrite Hr.
Qed.

Lemma splitPath_removes_leftmost_occurrence_witness :
  "src" <> "" /\
  Js.includes ("src" ++ "/") "/work/src/lib/src/a.ts" = true /\
  exists before after,
    "/work/src/lib/src/a.ts" = before ++ ("src" ++ "/") ++ after /\
    splitPath Posix.path "/work/src/lib/src/a.ts" (Some "src") = (before ++ after, "src").
Proof.
  split; [discriminate|]. split; [reflexivity|].
  destruct (splitPath_removes_leftmost_occurrence Posix.path "/work/src/lib/src/a.ts" "src"
              ltac:(discriminate) eq_refl) as (before & after & H1 & H2 & _).
  exists before, after. split; [exact H1 | exact H2].
Defined.

(** ** Before the handle is resolved *)


